(** * EnvisionPerdido: series identity, label merge and label propagation

    A shallow embedding of the label pipeline of the EnvisionPerdido scripts
    ([scripts/fill_recurring_labels.py], [scripts/svm_train_from_file.py],
    [scripts/merge_and_propagate_labels.py], [scripts/auto_label_and_train.py],
    [scripts/svm_tag_events.py], [scripts/svm_tag_from_file.py],
    [scripts/smart_label_helper.py]) and the properties its specification
    states about it.

    Conventions of the embedding.
    - A Python [str] is a [string]; a character is a code point below 256.
    - A cell of a label column that the strict propagators inspect is
      represented by its rendering under [astype(str)]: they only ever look
      at that rendering, and either keep the cell or put a string in its
      place. A missing cell renders as "nan". The column is one that can
      hold a missing cell or a string (of dtype object or float64), so that
      writing one into it leaves the rendering of its other cells as it
      is; a column of integers alone, in which no label is missing, is
      turned into floats by a null written into it.
    - A series key is a cell, which may be null; [groupby] leaves the rows
      with a null key out of every group.
    - A pandas frame is the list of its rows, in index order. *)

From Stdlib Require Import String Ascii List Bool Arith ZArith QArith Qabs Lia Lqa.
From Stdlib Require Import Sorted.
From Stdlib Require OrderedTypeEx.
Import ListNotations.

Local Close Scope Q_scope.
Local Open Scope string_scope.
Local Open Scope list_scope.
Local Open Scope nat_scope.

(* ================================================================== *)
(** ** Python string operations *)

Module PyStr.

(** [str.isspace] on one character, which is also what [\s] of a [str]
    pattern matches and what [str.strip()] removes: tab, line feed,
    vertical tab, form feed, carriage return, the four separators
    0x1c-0x1f, the space, NEL (0x85) and the no-break space (0xa0). *)
Definition is_space (c : ascii) : bool :=
  let n := nat_of_ascii c in
  ((9 <=? n) && (n <=? 13)) || ((28 <=? n) && (n <=? 32))
  || (n =? 133) || (n =? 160).

(** [str.lower] on one character: A-Z, and the Latin-1 capitals 0xc0-0xde
    but for the multiplication sign 0xd7. *)
Definition lower_char (c : ascii) : ascii :=
  let n := nat_of_ascii c in
  if ((65 <=? n) && (n <=? 90))
     || ((192 <=? n) && (n <=? 222) && negb (n =? 215))
  then ascii_of_nat (n + 32) else c.

Fixpoint lower (s : string) : string :=
  match s with
  | EmptyString => EmptyString
  | String c r => String (lower_char c) (lower r)
  end.

Fixpoint lstrip_by (p : ascii -> bool) (s : string) : string :=
  match s with
  | EmptyString => EmptyString
  | String c r => if p c then lstrip_by p r else s
  end.

Fixpoint rstrip_by (p : ascii -> bool) (s : string) : string :=
  match s with
  | EmptyString => EmptyString
  | String c r =>
      match rstrip_by p r with
      | EmptyString => if p c then EmptyString else String c EmptyString
      | r' => String c r'
      end
  end.

(** [s.strip()] *)
Definition strip (s : string) : string :=
  rstrip_by is_space (lstrip_by is_space s).

(** [s.rstrip("/")] *)
Definition rstrip_slash (s : string) : string :=
  rstrip_by (Ascii.eqb "/") s.

(** [re.sub(r"\s+", " ", s)]: [in_run] tells that the previous character
    was white space, whose run has already produced its single space. *)
Fixpoint collapse_ws_from (in_run : bool) (s : string) : string :=
  match s with
  | EmptyString => EmptyString
  | String c r =>
      if is_space c
      then (if in_run then collapse_ws_from true r
            else String " " (collapse_ws_from true r))
      else String c (collapse_ws_from false r)
  end.

Definition collapse_ws (s : string) : string := collapse_ws_from false s.

(** The class [[a-z0-9 ]]. *)
Definition is_key_char (c : ascii) : bool :=
  let n := nat_of_ascii c in
  ((97 <=? n) && (n <=? 122)) || ((48 <=? n) && (n <=? 57)) || (n =? 32).

(** [re.sub(r"[^a-z0-9 ]+", "", s)] *)
Fixpoint keep_key_chars (s : string) : string :=
  match s with
  | EmptyString => EmptyString
  | String c r =>
      if is_key_char c then String c (keep_key_chars r) else keep_key_chars r
  end.

Definition newline : ascii := ascii_of_nat 10.

(** Where [.*$] matches at the head of [r]: [.] is any character but the
    line feed and [$] is the end of the string or the place before a line
    feed that ends it. The result is what the match leaves. *)
Fixpoint dot_star_dollar (r : string) : option string :=
  match r with
  | EmptyString => Some EmptyString
  | String c r' =>
      if Ascii.eqb c newline
      then (match r' with
            | EmptyString => Some r
            | _ => None
            end)
      else dot_star_dollar r'
  end.

Definition is_query_mark (c : ascii) : bool :=
  Ascii.eqb c "?" || Ascii.eqb c "#".

(** [re.sub(r"[\?#].*$", "", u)] *)
Fixpoint strip_query (u : string) : string :=
  match u with
  | EmptyString => EmptyString
  | String c r =>
      if is_query_mark c
      then match dot_star_dollar r with
           | Some rest => rest
           | None => String c (strip_query r)
           end
      else String c (strip_query r)
  end.

(** [s.replace('.0', '', 1)], also pandas' [.str.replace('.0', '', 1)]
    (the third argument is the count, the pattern is literal). *)
Fixpoint remove_first_dot0 (s : string) : string :=
  match s with
  | EmptyString => EmptyString
  | String c r =>
      match r with
      | String d r' =>
          if Ascii.eqb c "." && Ascii.eqb d "0" then r'
          else String c (remove_first_dot0 r)
      | EmptyString => s
      end
  end.

(** pandas' [.str.replace('.0', '', regex=False)]: every occurrence, left
    to right. *)
Fixpoint remove_all_dot0 (s : string) : string :=
  match s with
  | EmptyString => EmptyString
  | String c r =>
      match r with
      | String d r' =>
          if Ascii.eqb c "." && Ascii.eqb d "0" then remove_all_dot0 r'
          else String c (remove_all_dot0 r)
      | EmptyString => s
      end
  end.

(** [v in ("0", "1")], [.isin(["0", "1"])] *)
Definition in01 (s : string) : bool := String.eqb s "0" || String.eqb s "1".

Fixpoint all_chars (p : ascii -> bool) (s : string) : bool :=
  match s with
  | EmptyString => true
  | String c r => p c && all_chars p r
  end.

Fixpoint last_char (s : string) : option ascii :=
  match s with
  | EmptyString => None
  | String c EmptyString => Some c
  | String _ r => last_char r
  end.

(** [s.split()]: the words of [s], its maximal runs of characters that are
    not white space. *)
Fixpoint split (s : string) : list string :=
  match s with
  | EmptyString => []
  | String c r =>
      if is_space c then split r
      else
        match r with
        | EmptyString => [String c EmptyString]
        | String d _ =>
            if is_space d then String c EmptyString :: split r
            else
              match split r with
              | w :: ws => String c w :: ws
              | [] => [String c EmptyString]
              end
        end
  end.

(** [" ".join(words)] *)
Fixpoint join_spaces (words : list string) : string :=
  match words with
  | [] => EmptyString
  | w :: ws =>
      match ws with
      | [] => w
      | _ :: _ => w ++ String " " (join_spaces ws)
      end
  end.

End PyStr.

(* ================================================================== *)
(** ** Cells of a frame read from a file *)

Module Cell.

(** A cell of a column that [read_csv] produced: missing ([NaN], also
    [None]), a number, or a string. *)
Inductive cell : Type :=
| NaN
| Num (z : Z)
| Str (s : string).

Definition isna (c : cell) : bool :=
  match c with
  | NaN => true
  | _ => false
  end.

Definition notna (c : cell) : bool := negb (isna c).

(** Equality of two cells as group keys and as counted values. *)
Definition eqb (a b : cell) : bool :=
  match a, b with
  | NaN, NaN => true
  | Num x, Num y => Z.eqb x y
  | Str x, Str y => String.eqb x y
  | _, _ => false
  end.

(** [self.fillna(other)] on one row, and [self.fillna(value)]. *)
Definition fillna (self other : cell) : cell :=
  match self with
  | NaN => other
  | _ => self
  end.

(** A string cell with nothing but white space in it. *)
Definition is_blank (c : cell) : bool :=
  match c with
  | Str s => String.eqb (PyStr.strip s) EmptyString
  | _ => false
  end.

(** The values of [l], each once, in the order of their first occurrence. *)
Fixpoint unique (l : list cell) : list cell :=
  match l with
  | [] => []
  | x :: r => x :: filter (fun y => negb (eqb y x)) (unique r)
  end.

Definition count (x : cell) (l : list cell) : nat :=
  length (filter (eqb x) l).

Definition max_count (l : list cell) : nat :=
  fold_right (fun x m => Nat.max (count x l) m) 0 (unique l).

(** The order in which [mode] sorts its result. *)
Definition leb (a b : cell) : bool :=
  match a, b with
  | Num x, Num y => Z.leb x y
  | Str x, Str y => String.leb x y
  | _, _ => true
  end.

Definition same_kind (a b : cell) : bool :=
  match a, b with
  | NaN, NaN | Num _, Num _ | Str _, Str _ => true
  | _, _ => false
  end.

Fixpoint minimum (x : cell) (l : list cell) : cell :=
  match l with
  | [] => x
  | y :: r => minimum (if leb x y then x else y) r
  end.

(** [labels.mode()]: the values met most often. *)
Definition mode (l : list cell) : list cell :=
  filter (fun x => count x l =? max_count l) (unique l).

(** [labels.mode().iloc[0]], [labels.mode()[0]]: the modes come sorted, so
    the first is the least; when they cannot be compared (numbers among
    strings) pandas leaves them as they are. *)
Definition mode_first (l : list cell) : option cell :=
  match mode l with
  | [] => None
  | m :: ms =>
      if forallb (same_kind m) ms then Some (minimum m ms) else Some m
  end.

End Cell.

(* ================================================================== *)
(** ** Series identity: [make_series_id] *)

Module Resolver.
Import PyStr.

(** A cell of an event frame as [make_series_id] meets it: [None] (a null
    of a JSON file), [NaN] (an empty field of a CSV file), a string, or
    another scalar (a number, a boolean), which is given by its [str()] and
    by its truth value. *)
Inductive pyval : Type :=
| PNone
| PNaN
| PStr (s : string)
| POther (repr : string) (truth : bool).

(** [str(v)], which is also what [astype(str)] puts in the place of [v]. *)
Definition str (v : pyval) : string :=
  match v with
  | PNone => "None"
  | PNaN => "nan"
  | PStr s => s
  | POther repr _ => repr
  end.

(** [bool(v)]: [None] and the empty string are false, [NaN] is true. *)
Definition truthy (v : pyval) : bool :=
  match v with
  | PNone => false
  | PNaN => true
  | PStr s => negb (String.eqb s "")
  | POther _ truth => truth
  end.

(** [str(u or "")] *)
Definition str_or_empty (u : pyval) : string :=
  if truthy u then str u else "".

(** [_norm_url] from the string [str(u or "")] on. *)
Definition _norm_url (u : string) : string :=
  let u := strip u in
  if String.eqb u "" then ""
  else
    let u := strip_query u in
    rstrip_slash u.

(** [_norm_str] from the string [str(s or "")] on. *)
Definition _norm_str (s : string) : string :=
  let s := lower s in
  let s := strip (collapse_ws s) in
  keep_key_chars s.

(** One row of an event frame, as [make_series_id] reads it: the four
    columns it is given. A column that the frame does not have stands as
    the empty string in every row ([df.get(col, pd.Series(""))]). *)
Record event : Type := mkEvent {
  ev_uid : pyval;
  ev_url : pyval;
  ev_title : pyval;
  ev_location : pyval
}.

(** [series.where(~mask, other)] on one row. *)
Definition where_not (mask : bool) (self other : string) : string :=
  if negb mask then self else other.

(** [make_series_id], row by row; the frame version maps it. After
    [astype(str)] and after the two [map]s every column holds strings, so
    [isna()] is false throughout and the final [fillna("")] changes
    nothing. *)
Definition make_series_id_row (e : event) : string :=
  let uid := strip (str (ev_uid e)) in
  let url := _norm_url (str_or_empty (ev_url e)) in
  let title := _norm_str (str_or_empty (ev_title e)) in
  let loc := _norm_str (str_or_empty (ev_location e)) in
  let series_id := uid in
  let empty_uid := String.eqb series_id "" in
  let series_id := where_not empty_uid series_id url in
  let still_empty := String.eqb series_id "" in
  let series_id := where_not still_empty series_id (title ++ "|" ++ loc) in
  series_id.

Definition make_series_id (df : list event) : list string :=
  map make_series_id_row df.

(** An event whose four fields are strings. *)
Definition text_event (uid url title location : string) : event :=
  mkEvent (PStr uid) (PStr url) (PStr title) (PStr location).

(** The text of a field as the specification reads it: an absent field
    counts as the empty string. *)
Definition spec_text (v : pyval) : string :=
  match v with
  | PNone | PNaN => ""
  | PStr s => s
  | POther repr _ => repr
  end.

(** The normalisation as the specification words it: lower-case, collapse
    the runs of white space to single spaces and trim, which leaves the
    words joined by single spaces, then remove what is outside
    [[a-z0-9 ]]. *)
Definition spec_norm_str (s : string) : string :=
  keep_key_chars (join_spaces (split (lower s))).

(** The resolver as the specification words it: the url rule applies as
    soon as the url is present. *)
Definition spec_series_key (e : event) : string :=
  let uid := spec_text (ev_uid e) in
  let url := spec_text (ev_url e) in
  if negb (String.eqb (strip uid) "") then strip uid
  else if negb (String.eqb url "") then _norm_url url
  else spec_norm_str (spec_text (ev_title e)) ++ "|"
       ++ spec_norm_str (spec_text (ev_location e)).

End Resolver.

(* ================================================================== *)
(** ** Frames: [groupby(key)[col].transform(f)] *)

Module Frame.

Section Groupby.
Context {K A : Type}.
Variable keqb : K -> K -> bool.

(** The column of the rows whose key is [k], in index order: the group that
    [groupby] hands to the transformed function. *)
Definition group_of (k : K) (df : list (K * A)) : list A :=
  map snd (filter (fun r => keqb (fst r) k) df).

(** [transform]: every row receives the value that [f] returned for its
    group, at the row's own place in that group. [seen] holds the rows
    before the current one, whose number in the group is that place. *)
Fixpoint transform_from (f : list A -> list A) (all seen todo : list (K * A))
  : list A :=
  match todo with
  | [] => []
  | (k, c) :: rest =>
      nth (length (group_of k seen)) (f (group_of k all)) c
      :: transform_from f all (seen ++ [(k, c)]) rest
  end.

Definition transform (f : list A -> list A) (df : list (K * A)) : list A :=
  transform_from f df [] df.

(** [df[col] = values] *)
Definition set_column (df : list (K * A)) (values : list A) : list (K * A) :=
  combine (map fst df) values.

End Groupby.

(** [df.loc[mask, col] = values], [values] holding one entry for each row
    that [mask] selects, in order. *)
Fixpoint assign_where {A : Type} (mask : list bool) (col values : list A)
  : list A :=
  match mask, col with
  | true :: mask', c :: col' =>
      match values with
      | v :: values' => v :: assign_where mask' col' values'
      | [] => c :: assign_where mask' col' []
      end
  | false :: mask', c :: col' => c :: assign_where mask' col' values
  | _, _ => col
  end.

(** [values], one for each row that [mask] selects, put back on the index
    of the frame: the other rows receive [null]. *)
Fixpoint reindex {A : Type} (mask : list bool) (values : list A) (null : A)
  : list A :=
  match mask with
  | [] => []
  | true :: mask' =>
      match values with
      | v :: values' => v :: reindex mask' values' null
      | [] => null :: reindex mask' [] null
      end
  | false :: mask' => null :: reindex mask' values null
  end.

Section Dropna.
Context {K A : Type}.
Variable keqb : K -> K -> bool.
Variable isna : K -> bool.
Variable null : A.

(** [groupby(key)[col].transform(f)] as pandas runs it, with [dropna=True]:
    a row whose key is null is in no group, and the result holds a null at
    its place. *)
Definition transform_dropna (f : list A -> list A) (df : list (K * A))
  : list A :=
  let in_a_group := fun r : K * A => negb (isna (fst r)) in
  reindex (map in_a_group df) (transform keqb f (filter in_a_group df)) null.

End Dropna.

End Frame.

(* ================================================================== *)
(** ** [fill_recurring_labels.py] *)

Module FillRecurring.
Import PyStr.

(** [vals.add(clean)] on a set kept as a list without repeats. *)
Definition set_add (x : string) (s : list string) : list string :=
  if existsb (String.eqb x) s then s else s ++ [x].

(** [v.replace('.0', '', 1).strip()] *)
Definition clean (v : string) : string := strip (remove_first_dot0 v).

(** The loop of [propagate] that collects the labels of a series. *)
Definition vals (group : list string) : list string :=
  fold_left
    (fun vals v => if in01 (clean v) then set_add (clean v) vals else vals)
    group [].

(** The condition of [group.where]: the cells that are kept. *)
Definition keeps (c : string) : bool := in01 (remove_first_dot0 c).

(** [propagate]: the function handed to [transform]. With one element in
    the set, [vals.pop()] is that element. *)
Definition propagate (group : list string) : list string :=
  let vals := vals group in
  if length vals =? 1 then
    match vals with
    | label_val :: _ =>
        map (fun c => if keeps c then c else label_val) group
    | [] => group
    end
  else group.

(** A missing cell ([NaN]) of the label column, as [astype(str)] renders
    it. *)
Definition missing : string := "nan".

(** [fill_recurring_labels] on a frame that has its [series_id] column and
    its label column; a row is its series key, which may be null, and its
    label. The function returns the frame and nothing else, and prints
    nothing. *)
Definition fill_recurring_labels (df : list (Cell.cell * string))
  : list (Cell.cell * string) :=
  Frame.set_column df
    (Frame.transform_dropna Cell.eqb Cell.isna missing propagate df).

(** The series that [fill_recurring_labels] reports as conflicting: it has
    no such output, neither a returned value nor a printed line. *)
Definition reported_conflicts (df : list (Cell.cell * string))
  : list Cell.cell :=
  [].

End FillRecurring.

(* ================================================================== *)
(** ** [svm_train_from_file.py] *)

Module Trainer.
Import PyStr.

(** [{v for v in group.astype(str) if v in ("0", "1")}] *)
Definition vals (group : list string) : list string :=
  fold_left
    (fun vals v => if in01 v then FillRecurring.set_add v vals else vals)
    group [].

(** [propagate] of [main], under [--propagate-series-labels]. *)
Definition propagate (group : list string) : list string :=
  let vals := vals group in
  if length vals =? 1 then
    match vals with
    | v :: _ => map (fun c => if in01 c then c else v) group
    | [] => group
    end
  else group.

(** The propagation step of [main]:
    [df[label] = df.groupby("series_id")[label].transform(propagate)]. *)
Definition propagate_labels (df : list (Cell.cell * string))
  : list (Cell.cell * string) :=
  Frame.set_column df
    (Frame.transform_dropna Cell.eqb Cell.isna FillRecurring.missing
       propagate df).

(** [labeled_mask] of [main], on one cell. *)
Definition labeled_mask (c : string) : bool := in01 (remove_all_dot0 c).

(** What [main] does with the rows it has chosen: it leaves with
    [SystemExit], or it passes its checks and hands the labeled rows [df_l]
    on to the steps that build the features and fit the pipeline. Those
    steps are scikit-learn's and are not part of this model; whether they
    succeed depends on the texts of the rows. *)
Inductive selection : Type :=
| SystemExit (message : string)
| Labeled (df_l : list (Cell.cell * string)).

(** [main] from the propagation step to the check on [df_l]:
    [propagate_series_labels] is the command line flag, [has_label] tells
    that the label column is in the frame. *)
Definition main_select (propagate_series_labels has_label : bool)
  (df : list (Cell.cell * string)) : selection :=
  let df :=
    if propagate_series_labels && has_label then propagate_labels df
    else df in
  if negb has_label then SystemExit "label column not found"
  else
    let df_l := filter (fun r => labeled_mask (snd r)) df in
    match df_l with
    | [] => SystemExit "No labeled rows found."
    | _ => Labeled df_l
    end.

(** *** [build_features]: the columns derived from [start]

    [pd.to_datetime(..., errors="coerce", utc=True)] gives every row a UTC
    timestamp, a number of nanoseconds since 1970-01-01T00:00, or [NaT],
    here [None]. *)

Definition ns_per_hour : Z := 3600000000000.
Definition ns_per_day : Z := 86400000000000.

(** [dt.hour] *)
Definition dt_hour (t : Z) : Z := ((t / ns_per_hour) mod 24)%Z.

(** [dt.dayofweek], Monday being 0; day 0 was a Thursday. *)
Definition dt_dayofweek (t : Z) : Z := ((t / ns_per_day + 3) mod 7)%Z.

(** [.fillna(d).astype(int)] *)
Definition fillna_int (x : option Z) (d : Z) : Z :=
  match x with
  | Some v => v
  | None => d
  end.

(** [.between(lo, hi)] *)
Definition between (lo hi x : Z) : bool := ((lo <=? x) && (x <=? hi))%Z.

Record temporal : Type := mkTemporal { hour : Z; is_weekend : Z }.

Definition build_features_temporal (dt : option Z) : temporal :=
  let hour := fillna_int (option_map dt_hour dt) (-1) in
  let dow := fillna_int (option_map dt_dayofweek dt) (-1) in
  let is_weekend := if between 5 6 dow then 1%Z else 0%Z in
  mkTemporal hour is_weekend.

(** The day of the week that [build_features] computes on the way. *)
Definition build_features_dow (dt : option Z) : Z :=
  fillna_int (option_map dt_dayofweek dt) (-1).

End Trainer.

(* ================================================================== *)
(** ** [merge_and_propagate_labels.py] *)

Module MergePropagate.
Import Cell.

Record row : Type := mkRow {
  series_id : cell;
  label : cell;
  predicted_label : cell
}.

(** Step 1 on one row: [df['label'].fillna(df['predicted_label'])]. *)
Definition merge (manual_label predicted : cell) : cell :=
  fillna manual_label predicted.

(** The merge as the specification words it, a label being present when it
    is neither null nor blank. *)
Definition spec_present (c : cell) : bool := notna c && negb (is_blank c).

Definition spec_merge (manual_label predicted : cell) : cell :=
  if spec_present manual_label then manual_label
  else if spec_present predicted then predicted
  else NaN.

(** [propagate_series] *)
Definition propagate_series (group : list cell) : list cell :=
  let labeled := filter notna group in
  if length labeled =? 0 then group
  else
    let most_common := mode labeled in
    if 0 <? length most_common then
      match mode_first labeled with
      | Some fill_value => map (fun c => fillna c fill_value) group
      | None => group
      end
    else group.

(** [valid_series] on one row. *)
Definition valid_series (k : cell) : bool :=
  notna k && negb (eqb k (Str EmptyString)).

(** Step 2: the column [final_label] after
    [df.loc[valid_series, 'final_label'] = df[valid_series].groupby(...)...]. *)
Definition propagate_valid (df : list (cell * cell)) : list cell :=
  let mask := map (fun r => valid_series (fst r)) df in
  let sub := filter (fun r => valid_series (fst r)) df in
  Frame.assign_where mask (map snd df)
    (Frame.transform eqb propagate_series sub).

(** [main] from the frame it loads to the frame it saves. *)
Definition main (df : list row) : list row :=
  let final_label := map (fun r => merge (label r) (predicted_label r)) df in
  let final_label :=
    propagate_valid (combine (map series_id df) final_label) in
  map (fun rf => mkRow (series_id (fst rf)) (snd rf) (predicted_label (fst rf)))
      (combine df final_label).

End MergePropagate.

(* ================================================================== *)
(** ** [auto_label_and_train.extract_series_id] *)

Module SeriesNumber.
Import Cell.

Definition is_digit (c : ascii) : bool :=
  let n := nat_of_ascii c in (48 <=? n) && (n <=? 57).

(** What follows the prefix [p] in [s], when [s] begins with it. *)
Fixpoint after_prefix (p s : string) : option string :=
  match p with
  | EmptyString => Some s
  | String a p' =>
      match s with
      | EmptyString => None
      | String b s' => if Ascii.eqb a b then after_prefix p' s' else None
      end
  end.

(** The digits that [\d+] takes at the head of [s]: all there are. *)
Fixpoint take_digits (s : string) : string :=
  match s with
  | EmptyString => EmptyString
  | String c r => if is_digit c then String c (take_digits r) else EmptyString
  end.

(** [int] of a string of digits. *)
Fixpoint int_from (acc : Z) (digits : string) : Z :=
  match digits with
  | EmptyString => acc
  | String c r => int_from (10 * acc + Z.of_nat (nat_of_ascii c - 48)) r
  end.

Definition int (digits : string) : Z := int_from 0 digits.

(** [re.search(r'series_id=(\d+)', s)] and [int(match.group(1))]: the
    leftmost place where the pattern matches. *)
Fixpoint search (s : string) : option Z :=
  match s with
  | EmptyString => None
  | String _ r =>
      match after_prefix "series_id=" s with
      | Some rest =>
          match take_digits rest with
          | EmptyString => search r
          | digits => Some (int digits)
          end
      | None => search r
      end
  end.

(** [extract_series_id]: the rendering of a number does not hold the
    pattern. *)
Definition extract_series_id (uid : cell) : cell :=
  match uid with
  | NaN => NaN
  | Num _ => NaN
  | Str s =>
      match search s with
      | Some n => Num n
      | None => NaN
      end
  end.

End SeriesNumber.

(* ================================================================== *)
(** ** [auto_label_and_train.py] *)

Module AutoLabel.
Import Cell.

Record row : Type := mkRow {
  uid : cell;
  series_id : cell;
  label : cell;
  label_source : cell
}.

(** A frame and whether it has a [series_id] column; without the column
    the field [series_id] of its rows stands for nothing. *)
Record frame : Type := mkFrame {
  has_series_id : bool;
  rows : list row
}.

(** [df['series_id'] = df['uid'].apply(extract_series_id)] *)
Definition rebuild_series_id (df : list row) : list row :=
  map (fun r => mkRow (uid r) (SeriesNumber.extract_series_id (uid r))
                      (label r) (label_source r)) df.

(** The first step of [propagate_series_labels]: the keys are read off the
    uids when the frame has no [series_id] column or has nothing but nulls
    in it. *)
Definition with_series_id (df : frame) : list row :=
  if negb (has_series_id df) || forallb isna (map series_id (rows df))
  then rebuild_series_id (rows df)
  else rows df.

(** The body of the loop of [propagate_series_labels] for the group of key
    [k]; [df0] is the frame the groups were taken from, [df] the frame being
    written. *)
Definition propagate_group (df0 : list row) (df : list row) (k : cell)
  : list row :=
  if isna k then df
  else
    let group := filter (fun r => eqb (series_id r) k) df0 in
    let labels := filter notna (map label group) in
    if 0 <? length labels then
      let majority_label :=
        match mode_first labels with
        | Some m => m
        | None => hd NaN labels
        end in
      map (fun r =>
             if eqb (series_id r) k
             then mkRow (uid r) (series_id r) majority_label
                        (Str "series_propagation")
             else r) df
    else df.

(** The loop of [propagate_series_labels]: one round for each key of the
    frame. *)
Definition propagate_rows (df : list row) : list row :=
  fold_left (propagate_group df) (unique (map series_id df)) df.

(** [propagate_series_labels]; the frame it returns has the column. *)
Definition propagate_series_labels (df : frame) : frame :=
  mkFrame true (propagate_rows (with_series_id df)).

(** The start of [main]: with fewer than five labeled rows it prints a
    message and returns, before any model is trained ([None]); otherwise
    the labeled rows go to [train_initial_model]. *)
Definition main_initial (existing_labels : list cell) : option (list cell) :=
  let labeled_df := filter notna existing_labels in
  if length labeled_df <? 5 then None else Some labeled_df.

End AutoLabel.

(* ================================================================== *)
(** ** Confidence of a prediction

    The decision function gives floating point margins; here a margin is a
    rational number and the arithmetic is exact. *)

Module Confidence.
Local Open Scope Q_scope.

(** [svm_tag_events.py]: [1 / (1 + pd.Series(decision_scores).abs())] *)
Definition svm_tag_events (decision_score : Q) : Q :=
  1 / (1 + Qabs decision_score).

(** [smart_label_helper.py]: [1 / (1 + pd.Series(decision_scores).abs())] *)
Definition smart_label (decision_score : Q) : Q :=
  1 / (1 + Qabs decision_score).

(** [svm_tag_from_file.py]: [np.abs(df["svm_margin"])] *)
Definition svm_tag_from_file (margin : Q) : Q := Qabs margin.

End Confidence.

(* ================================================================== *)
(** ** The vocabulary of the strict propagation rule *)

Module Strict.
Import PyStr.

Section Reading.
(** The text of a cell that a propagator compares with "0" and "1". *)
Variable value : string -> string.

(** The label in {0,1} that a cell carries, [None] when it carries none. *)
Definition label_of (c : string) : option string :=
  if in01 (value c) then Some (value c) else None.

(** The value [v] occurs among the labels of the group. *)
Definition has (v : string) (group : list string) : bool :=
  existsb (fun c => String.eqb (value c) v) group.

(** The one value in {0,1} that occurs in the group, when there is exactly
    one. *)
Definition one_value (group : list string) : option string :=
  match has "0" group, has "1" group with
  | true, false => Some "0"
  | false, true => Some "1"
  | _, _ => None
  end.

(** More than one distinct value in {0,1} occurs. *)
Definition conflicting (group : list string) : bool :=
  has "0" group && has "1" group.

(** No value in {0,1} occurs. *)
Definition unlabeled (group : list string) : bool :=
  negb (has "0" group) && negb (has "1" group).

End Reading.

(** The series of a frame whose labels conflict. *)
Definition conflicting_series (value : string -> string)
  (df : list (Cell.cell * string)) : list Cell.cell :=
  filter (fun k => Cell.notna k
                   && conflicting value (Frame.group_of Cell.eqb k df))
         (map fst df).

End Strict.

(* ================================================================== *)
(** ** [fill_recurring_labels.main]: the counts it prints *)

Module FillRecurringMain.

(** [df[label].astype(str).str.replace('.0', '', 1).isin(["0", "1"]).sum()] *)
Definition labeled_count (df : list (Cell.cell * string)) : nat :=
  length (filter FillRecurring.keeps (map snd df)).

(** The numbers behind "Labels before", "Labels after" and "Auto-filled",
    and the number of events that "still need manual labels". *)
Record counts : Type := mkCounts {
  labeled_before : Z;
  labeled_after : Z;
  auto_filled : Z;
  unlabeled : Z
}.

Definition main_counts (df : list (Cell.cell * string)) : counts :=
  let labeled_before := Z.of_nat (labeled_count df) in
  let df' := FillRecurring.fill_recurring_labels df in
  let labeled_after := Z.of_nat (labeled_count df') in
  mkCounts labeled_before labeled_after
           (labeled_after - labeled_before)
           (Z.of_nat (length df') - labeled_after).

End FillRecurringMain.

(* ================================================================== *)
(** ** [drop_duplicates(subset=[key], keep="first")] *)

Module Dedup.

Section ByKey.
Context {R K : Type}.
Variable keqb : K -> K -> bool.
Variable key : R -> K.

(** [seen] holds the keys of the rows already kept. *)
Fixpoint drop_duplicates_from (seen : list K) (df : list R) : list R :=
  match df with
  | [] => []
  | r :: rest =>
      if existsb (keqb (key r)) seen then drop_duplicates_from seen rest
      else r :: drop_duplicates_from (key r :: seen) rest
  end.

Definition drop_duplicates (df : list R) : list R :=
  drop_duplicates_from [] df.

End ByKey.

End Dedup.

(* ================================================================== *)
(** ** [svm_train_from_file.main]: [--collapse-series] *)

Module Collapse.

Record row : Type := mkRow {
  series_id : string;
  label : string;
  description : string
}.

(** [_desc_len]: [.astype(str).str.len()] of the description. *)
Definition desc_len (r : row) : nat := String.length (description r).

(** The order of
    [sort_values(["series_id", "_desc_len"], ascending=[True, False])]:
    [a] may stand before [b]. *)
Definition before (a b : row) : bool :=
  match String.compare (series_id a) (series_id b) with
  | Lt => true
  | Gt => false
  | Eq => desc_len b <=? desc_len a
  end.

Fixpoint insert (r : row) (sorted : list row) : list row :=
  match sorted with
  | [] => [r]
  | x :: rest => if before r x then r :: sorted else x :: insert r rest
  end.

(** The sort on several columns is stable: rows that compare equal keep
    the order of the frame. *)
Definition sort_values (df : list row) : list row := fold_right insert [] df.

(** The rows that [main] trains on under [--collapse-series]. *)
Definition collapse_series (df_l : list row) : list row :=
  Dedup.drop_duplicates String.eqb series_id (sort_values df_l).

End Collapse.

(* ================================================================== *)
(** ** [smart_label_helper.py]: the review flag and the merge with the
    existing data *)

Module SmartLabel.
Import Cell.

(** [confidence.values < confidence_threshold] on one row. *)
Definition needs_review (confidence_threshold decision_score : Q) : bool :=
  negb (Qle_bool confidence_threshold (Confidence.smart_label decision_score)).

(** [--auto-accept-high-confidence] on one row:
    [row["predicted_label"] if not row["needs_review"] else None]. *)
Definition auto_accept (predicted_label : cell) (needs_review : bool) : cell :=
  if negb needs_review then predicted_label else NaN.

Record row : Type := mkRow {
  uid : cell;
  label : cell
}.

(** [pd.concat([df_existing, df_new])] and then, the frames having a
    [uid] column, [drop_duplicates(subset=["uid"], keep="first")]. *)
Definition combine (df_existing df_new : list row) : list row :=
  Dedup.drop_duplicates eqb uid (df_existing ++ df_new).

End SmartLabel.

(* ================================================================== *)
(** ** [build_features]: the venue columns *)

Module Venue.
Import PyStr.

(** What [\w] of a [str] pattern matches, below 256: the letters, the
    digits and the underscore of ASCII, and of Latin-1 the letters
    (0xaa, 0xb5, 0xba, 0xc0-0xff but for 0xd7 and 0xf7) and the numbers
    (0xb2, 0xb3, 0xb9, 0xbc-0xbe). *)
Definition is_word (c : ascii) : bool :=
  let n := nat_of_ascii c in
  ((48 <=? n) && (n <=? 57)) || ((65 <=? n) && (n <=? 90))
  || ((97 <=? n) && (n <=? 122)) || (n =? 95)
  || (n =? 170) || (n =? 178) || (n =? 179) || (n =? 181) || (n =? 185)
  || (n =? 186) || ((188 <=? n) && (n <=? 190))
  || ((192 <=? n) && negb (n =? 215) && negb (n =? 247)).

(** What follows the literal [w] in [s], when [s] begins with it. *)
Fixpoint match_at (w s : string) : option string :=
  match w with
  | EmptyString => Some s
  | String a w' =>
      match s with
      | EmptyString => None
      | String b s' => if Ascii.eqb a b then match_at w' s' else None
      end
  end.

(** [\b] after a word character: the string ends or goes on with a
    character that is not one. *)
Definition boundary_ahead (s : string) : bool :=
  match s with
  | EmptyString => true
  | String c _ => negb (is_word c)
  end.

(** [.str.contains(r"\bw\b")] for a literal [w] made of word characters:
    [prev_is_word] tells that the character before [s] is a word
    character. *)
Fixpoint contains_word_from (w : string) (prev_is_word : bool) (s : string)
  : bool :=
  match s with
  | EmptyString => false
  | String c r =>
      (negb prev_is_word
       && match match_at w s with
          | Some rest => boundary_ahead rest
          | None => false
          end)
      || contains_word_from w (is_word c) r
  end.

Definition contains_word (w s : string) : bool := contains_word_from w false s.

(** [.str.contains("w")] for a literal [w] that is not empty. *)
Fixpoint contains (w s : string) : bool :=
  match s with
  | EmptyString => false
  | String _ r =>
      match match_at w s with
      | Some _ => true
      | None => contains w r
      end
  end.

(** [.astype(int)] of a column of booleans. *)
Definition as_int (b : bool) : Z := if b then 1%Z else 0%Z.

Record venues : Type := mkVenues {
  venue_library : Z;
  venue_park : Z;
  venue_church : Z;
  venue_museum : Z
}.

(** The four venue columns of [build_features] for one location, a null
    location having been replaced by the empty string. *)
Definition build_features_venues (location : string) : venues :=
  let loc := lower location in
  mkVenues
    (as_int (contains_word "library" loc))
    (as_int (contains_word "park" loc))
    (as_int (contains_word "church" loc))
    (as_int (contains_word "museum" loc || contains "gallery" loc)).

End Venue.

(* ================================================================== *)
(** * Properties *)

(** ** The features derived from [start] *)

Module FeatureFacts.
Import Trainer.
Local Open Scope Z_scope.

Lemma dt_hour_range (t : Z) : 0 <= dt_hour t <= 23.
Proof.
  unfold dt_hour.
  pose proof (Z.mod_pos_bound (t / ns_per_hour) 24 ltac:(lia)). lia.
Qed.

Lemma dt_dayofweek_range (t : Z) : 0 <= dt_dayofweek t <= 6.
Proof.
  unfold dt_dayofweek.
  pose proof (Z.mod_pos_bound (t / ns_per_day + 3) 7 ltac:(lia)). lia.
Qed.

Lemma is_weekend_of_dow (dt : option Z) :
  is_weekend (build_features_temporal dt) = 1 <->
  build_features_dow dt = 5 \/ build_features_dow dt = 6.
Proof.
  unfold build_features_temporal, build_features_dow, between; simpl.
  set (dow := fillna_int (option_map dt_dayofweek dt) (-1)).
  destruct (5 <=? dow) eqn:H5; destruct (dow <=? 6) eqn:H6; simpl;
    rewrite ?Z.leb_le, ?Z.leb_gt in *; split; intro H; lia.
Qed.

(** C8. For a start that parses, [hour] lies in 0..23 and [is_weekend] is 1
    exactly when the day of the week (Monday 0) is 5 or 6, and is 0
    otherwise; for a start that does not parse or is absent, [hour] is the
    sentinel -1 and [is_weekend] is 0. The builder is total: neither case is
    an error. *)
Theorem C8_temporal_features (dt : option Z) :
  match dt with
  | Some t =>
      0 <= hour (build_features_temporal dt) <= 23
      /\ hour (build_features_temporal dt) = dt_hour t
      /\ build_features_dow dt = dt_dayofweek t
      /\ 0 <= build_features_dow dt <= 6
      /\ (is_weekend (build_features_temporal dt) = 1 <->
          dt_dayofweek t = 5 \/ dt_dayofweek t = 6)
      /\ (is_weekend (build_features_temporal dt) = 0 <->
          ~ (dt_dayofweek t = 5 \/ dt_dayofweek t = 6))
  | None =>
      hour (build_features_temporal dt) = -1
      /\ is_weekend (build_features_temporal dt) = 0
  end.
Proof.
  destruct dt as [t|].
  - pose proof (dt_hour_range t) as Hh.
    pose proof (dt_dayofweek_range t) as Hd.
    pose proof (is_weekend_of_dow (Some t)) as Hw.
    assert (Hb : is_weekend (build_features_temporal (Some t)) = 0
                 \/ is_weekend (build_features_temporal (Some t)) = 1).
    { unfold build_features_temporal; simpl.
      destruct (between 5 6 (dt_dayofweek t)); auto. }
    change (build_features_dow (Some t)) with (dt_dayofweek t) in *.
    change (hour (build_features_temporal (Some t))) with (dt_hour t).
    split; [lia|]. split; [reflexivity|]. split; [reflexivity|].
    split; [lia|]. split; [exact Hw|]. split.
    + intros H0 H56. apply Hw in H56. lia.
    + intro Hn. destruct Hb as [Hb|Hb]; [exact Hb|]. apply Hw in Hb. tauto.
  - split; reflexivity.
Qed.

(** The scenario of the specification: 2024-06-01T02:00:00Z, a Saturday. *)
Example saturday_2am :
  build_features_temporal (Some (1717207200 * 1000000000))
  = mkTemporal 2 1.
Proof. reflexivity. Qed.

End FeatureFacts.

(* ================================================================== *)
(** ** Confidence *)

Module ConfidenceFacts.
Import Confidence.
Local Open Scope Q_scope.

Lemma one_plus_abs_pos (m : Q) : 0 < 1 + Qabs m.
Proof. pose proof (Qabs_nonneg m). lra. Qed.

Lemma inverse_margin_range (m : Q) : 0 < svm_tag_events m /\ svm_tag_events m <= 1.
Proof.
  unfold svm_tag_events. pose proof (one_plus_abs_pos m) as Hp.
  pose proof (Qabs_nonneg m) as Hn. split.
  - apply Qlt_shift_div_l; [exact Hp | lra].
  - apply Qle_shift_div_r; [exact Hp | lra].
Qed.

Lemma inverse_margin_antitone (m m' : Q) :
  Qabs m <= Qabs m' -> svm_tag_events m' <= svm_tag_events m.
Proof.
  intro H. unfold svm_tag_events.
  pose proof (one_plus_abs_pos m) as Hp. pose proof (one_plus_abs_pos m') as Hp'.
  apply Qle_shift_div_r; [exact Hp'|].
  setoid_replace (1 / (1 + Qabs m) * (1 + Qabs m'))
    with ((1 + Qabs m') / (1 + Qabs m)) by (field; lra).
  apply Qle_shift_div_l; [exact Hp|]. lra.
Qed.

(** C7, as the code has it. At the two call sites that normalise
    ([svm_tag_events.py] and [smart_label_helper.py]) the confidence is
    [1 / (1 + |margin|)]: it lies in (0, 1], the two sites compute the same
    value, and a larger absolute margin never gives a larger confidence.
    [svm_tag_from_file.py] reports the absolute margin itself. *)
Theorem C7_confidence (m m' : Q) :
  (0 < svm_tag_events m /\ svm_tag_events m <= 1)
  /\ smart_label m = svm_tag_events m
  /\ (Qabs m <= Qabs m' -> svm_tag_events m' <= svm_tag_events m)
  /\ svm_tag_from_file m = Qabs m.
Proof.
  split; [apply inverse_margin_range|].
  split; [reflexivity|].
  split; [apply inverse_margin_antitone|reflexivity].
Qed.

Lemma C7_confidence_witness :
  (0 < svm_tag_events (1 # 2) /\ svm_tag_events (1 # 2) <= 1)
  /\ smart_label (1 # 2) = svm_tag_events (1 # 2)
  /\ (Qabs (1 # 2) <= Qabs (-3 # 1) ->
      svm_tag_events (-3 # 1) <= svm_tag_events (1 # 2))
  /\ svm_tag_from_file (1 # 2) = Qabs (1 # 2).
Proof. exact (C7_confidence (1 # 2) (-3 # 1)). Defined.

(** C7 fails as stated: in [svm_tag_from_file.py] the confidence of the
    margin 2 is 2, outside [0, 1]; it is larger than the confidence of the
    margin 1; and it differs from what [svm_tag_events.py] reports for the
    same margin. *)
Lemma C7_counterexample :
  ~ (svm_tag_from_file 2 <= 1)
  /\ (Qabs 1 <= Qabs 2 /\ ~ (svm_tag_from_file 2 <= svm_tag_from_file 1))
  /\ ~ (svm_tag_from_file 2 == svm_tag_events 2).
Proof.
  split; [|split; [split|]].
  - intro H. vm_compute in H. apply H. reflexivity.
  - vm_compute. discriminate.
  - intro H. vm_compute in H. apply H. reflexivity.
  - intro H. vm_compute in H. discriminate.
Qed.

End ConfidenceFacts.

(* ================================================================== *)
(** ** The label merge *)

Module MergeFacts.
Import Cell MergePropagate.

Lemma merge_notna (m p : cell) : notna m = true -> merge m p = m.
Proof. destruct m; simpl; intro H; [discriminate | reflexivity | reflexivity]. Qed.

Lemma merge_isna (m p : cell) : isna m = true -> merge m p = p.
Proof. destruct m; simpl; intro H; [reflexivity | discriminate | discriminate]. Qed.

(** C4, as the code has it. The merge returns the manual label when it is
    not null, and the predicted label otherwise, which is absent when both
    are; so merge(1, 0) = 1, merge(absent, 0) = 0 and
    merge(absent, absent) = absent. Where neither label is a blank string it
    is the merge that the specification words. It is a total function. *)
Theorem C4_merge_priority (m p : cell) :
  merge m p = (if notna m then m else p)
  /\ (isna (merge m p) = true <-> isna m = true /\ isna p = true)
  /\ (is_blank m = false -> is_blank p = false -> merge m p = spec_merge m p)
  /\ merge (Num 1) (Num 0) = Num 1
  /\ merge NaN (Num 0) = Num 0
  /\ merge NaN NaN = NaN.
Proof.
  split; [destruct m; reflexivity|].
  split; [destruct m, p; simpl; intuition discriminate|].
  split; [|repeat split].
  intros Hm Hp. unfold spec_merge, spec_present.
  rewrite Hm, Hp. destruct m, p; reflexivity.
Qed.

Lemma C4_merge_priority_witness :
  merge (Num 1) (Str "0") = (if notna (Num 1) then Num 1 else Str "0")
  /\ (isna (merge (Num 1) (Str "0")) = true <->
      isna (Num 1) = true /\ isna (Str "0") = true)
  /\ (is_blank (Num 1) = false -> is_blank (Str "0") = false ->
      merge (Num 1) (Str "0") = spec_merge (Num 1) (Str "0"))
  /\ merge (Num 1) (Num 0) = Num 1
  /\ merge NaN (Num 0) = Num 0
  /\ merge NaN NaN = NaN.
Proof. exact (C4_merge_priority (Num 1) (Str "0")). Defined.

(** C4 fails as stated: a manual label that is a blank string is not null,
    so the merge keeps it, where the specification's rule takes the
    predicted label. *)
Lemma C4_counterexample :
  is_blank (Str " ") = true
  /\ merge (Str " ") (Num 0) = Str " "
  /\ spec_merge (Str " ") (Num 0) = Num 0
  /\ merge (Str " ") (Num 0) <> spec_merge (Str " ") (Num 0).
Proof. repeat split; discriminate. Qed.

End MergeFacts.

(* ================================================================== *)
(** ** The guards on the number of labeled rows *)

Module GuardFacts.
Import Cell.

Definition labeled_rows (df : list (cell * string)) : list (cell * string) :=
  filter (fun r => Trainer.labeled_mask (snd r)) df.

(** C9, as the code has it. The trainer leaves with [SystemExit] at its
    check on the labeled rows exactly when no row is labeled, and as soon as
    there is one it passes the check and hands the labeled rows on to the
    fit; the frame it counts in is the one after the optional propagation.
    [auto_label_and_train.main] returns before any training exactly when
    fewer than five rows carry a label. *)
Theorem C9_training_guards (propagate_series_labels : bool)
  (df : list (cell * string)) (existing : list cell) :
  let df' := if propagate_series_labels then Trainer.propagate_labels df else df in
  (length (labeled_rows df') = 0 ->
   Trainer.main_select propagate_series_labels true df
   = Trainer.SystemExit "No labeled rows found.")
  /\ (0 < length (labeled_rows df') ->
      Trainer.main_select propagate_series_labels true df
      = Trainer.Labeled (labeled_rows df'))
  /\ (length (filter notna existing) < 5 ->
      AutoLabel.main_initial existing = None)
  /\ (5 <= length (filter notna existing) ->
      AutoLabel.main_initial existing = Some (filter notna existing)).
Proof.
  intro df'. unfold Trainer.main_select, AutoLabel.main_initial.
  rewrite andb_true_r. fold df'. simpl negb. cbv iota.
  fold (labeled_rows df').
  repeat split.
  - intro H. destruct (labeled_rows df'); [reflexivity | discriminate].
  - intro H. destruct (labeled_rows df'); [simpl in H; lia | reflexivity].
  - intro H. apply Nat.ltb_lt in H. rewrite H. reflexivity.
  - intro H. apply Nat.ltb_ge in H. rewrite H. reflexivity.
Qed.

Lemma C9_training_guards_witness :
  let df := [(Str "s", "nan"); (Str "t", "x")] in
  let existing := [Num 1; NaN; Num 0; Num 1; Num 1; Num 0] in
  let df' := if false then Trainer.propagate_labels df else df in
  (length (labeled_rows df') = 0 ->
   Trainer.main_select false true df
   = Trainer.SystemExit "No labeled rows found.")
  /\ (0 < length (labeled_rows df') ->
      Trainer.main_select false true df = Trainer.Labeled (labeled_rows df'))
  /\ (length (filter notna existing) < 5 ->
      AutoLabel.main_initial existing = None)
  /\ (5 <= length (filter notna existing) ->
      AutoLabel.main_initial existing = Some (filter notna existing)).
Proof.
  exact (C9_training_guards false [(Str "s", "nan"); (Str "t", "x")]
           [Num 1; NaN; Num 0; Num 1; Num 1; Num 0]).
Defined.

(** C9 fails as stated: with four labeled rows, fewer than five, the
    trainer does not leave; all four pass its check and go to the fit. The
    frame is the one of a file with the columns [series_id], [title] and
    [label] and the rows (a, Community market day, 1),
    (a, Community market fair, 1), (b, Board budget meeting, 0),
    (b, Board budget hearing, 0): both classes occur, each of the terms
    community, market, board and budget is in two of the four texts, which
    meets [min_df=2] and [max_df=0.9], and with two series the pipeline is
    fitted on all four rows and saved. *)
Lemma C9_counterexample :
  let df := [(Str "a", "1"); (Str "a", "1"); (Str "b", "0"); (Str "b", "0")] in
  length (labeled_rows df) = 4
  /\ length (labeled_rows df) < 5
  /\ Trainer.main_select false true df = Trainer.Labeled df.
Proof. repeat split; simpl; lia. Qed.

End GuardFacts.

(* ================================================================== *)
(** ** Cells and their mode *)

Module CellFacts.
Import Cell.

Lemma eqb_eq (a b : cell) : eqb a b = true <-> a = b.
Proof.
  destruct a, b; simpl; try (split; [discriminate | congruence]).
  - tauto.
  - rewrite Z.eqb_eq. split; congruence.
  - rewrite String.eqb_eq. split; congruence.
Qed.

Lemma eqb_refl (a : cell) : eqb a a = true.
Proof. apply eqb_eq. reflexivity. Qed.

Lemma unique_In (x : cell) (l : list cell) : In x (unique l) <-> In x l.
Proof.
  induction l as [|a r IH]; simpl; [tauto|].
  rewrite filter_In, IH. split.
  - intros [H|[H _]]; auto.
  - intros [H|H]; [auto|].
    destruct (eqb x a) eqn:E.
    + left. symmetry. apply eqb_eq. exact E.
    + right. split; [exact H | reflexivity].
Qed.

Lemma mode_In (x : cell) (l : list cell) : In x (mode l) -> In x l.
Proof.
  unfold mode. intro H. apply filter_In in H. apply unique_In, H.
Qed.

Lemma minimum_In (x : cell) (l : list cell) : In (minimum x l) (x :: l).
Proof.
  revert x. induction l as [|y r IH]; intro x; simpl; [auto|].
  destruct (IH (if leb x y then x else y)) as [H|H]; [|auto].
  rewrite <- H. destruct (leb x y); auto.
Qed.

Lemma mode_first_In (l : list cell) (v : cell) :
  mode_first l = Some v -> In v l.
Proof.
  unfold mode_first. destruct (mode l) as [|m ms] eqn:E; [discriminate|].
  assert (Hsub : forall x, In x (m :: ms) -> In x l).
  { intros x Hx. apply mode_In. rewrite E. exact Hx. }
  destruct (forallb (same_kind m) ms); intro H; inversion H; subst v.
  - apply Hsub, minimum_In.
  - apply Hsub. left. reflexivity.
Qed.

Lemma fillna_notna (c v : cell) : notna c = true -> fillna c v = c.
Proof. destruct c; simpl; intro H; [discriminate | reflexivity | reflexivity]. Qed.

Lemma fillna_isna (c v : cell) : fillna c v = NaN -> c = NaN.
Proof. destruct c; simpl; intro H; [reflexivity | discriminate | discriminate]. Qed.

End CellFacts.

(* ================================================================== *)
(** ** [groupby] and [transform] *)

Module FrameFacts.
Import Frame.

Section Groupby.
Context {K A : Type}.
Variable keqb : K -> K -> bool.
Hypothesis keqb_eq : forall a b, keqb a b = true <-> a = b.

Lemma keqb_refl (k : K) : keqb k k = true.
Proof. apply keqb_eq. reflexivity. Qed.

Lemma group_of_app (k : K) (a b : list (K * A)) :
  group_of keqb k (a ++ b) = group_of keqb k a ++ group_of keqb k b.
Proof. unfold group_of. rewrite filter_app, map_app. reflexivity. Qed.

Lemma group_of_cons_same (k : K) (c : A) (df : list (K * A)) :
  group_of keqb k ((k, c) :: df) = c :: group_of keqb k df.
Proof. unfold group_of. simpl. rewrite keqb_refl. reflexivity. Qed.

Lemma group_of_In (k : K) (c : A) (df : list (K * A)) :
  In c (group_of keqb k df) <-> In (k, c) df.
Proof.
  unfold group_of. rewrite in_map_iff. split.
  - intros [[k' c'] [Hc Hin]]. simpl in Hc. subst c'.
    apply filter_In in Hin. destruct Hin as [Hin Hk]. simpl in Hk.
    apply keqb_eq in Hk. subst k'. exact Hin.
  - intro Hin. exists (k, c). split; [reflexivity|].
    apply filter_In. split; [exact Hin | apply keqb_refl].
Qed.

Section Pointwise.
(** A transformed function that maps its group cell by cell. *)
Variable h : list A -> A -> A.
Variable f : list A -> list A.
Hypothesis f_maps : forall g, f g = map (h g) g.

Lemma transform_from_pointwise (todo seen : list (K * A)) :
  transform_from keqb f (seen ++ todo) seen todo
  = map (fun r => h (group_of keqb (fst r) (seen ++ todo)) (snd r)) todo.
Proof.
  revert seen. induction todo as [|[k c] rest IH]; intro seen; [reflexivity|].
  simpl. f_equal.
  - rewrite f_maps, group_of_app, group_of_cons_same, map_app. simpl.
    rewrite <- (length_map (h (group_of keqb k seen ++ c :: group_of keqb k rest))
                  (group_of keqb k seen)).
    apply nth_middle.
  - specialize (IH (seen ++ [(k, c)])).
    rewrite <- app_assoc in IH. simpl in IH. exact IH.
Qed.

Lemma transform_pointwise (df : list (K * A)) :
  transform keqb f df
  = map (fun r => h (group_of keqb (fst r) df) (snd r)) df.
Proof. exact (transform_from_pointwise df []). Qed.

Lemma set_column_transform (df : list (K * A)) :
  set_column df (transform keqb f df)
  = map (fun r => (fst r, h (group_of keqb (fst r) df) (snd r))) df.
Proof.
  rewrite transform_pointwise. unfold set_column.
  induction df as [|[k c] rest IH]; [reflexivity|].
  simpl. f_equal.
  generalize ((k, c) :: rest) as all. intro all.
  clear IH. induction rest as [|[k' c'] rest IH]; [reflexivity|].
  simpl. f_equal. exact IH.
Qed.

End Pointwise.

(** The group of a key in a frame whose cells were rewritten group by
    group. *)
Lemma group_of_rewritten (phi : K -> A -> A) (k : K) (df : list (K * A)) :
  group_of keqb k (map (fun r => (fst r, phi (fst r) (snd r))) df)
  = map (phi k) (group_of keqb k df).
Proof.
  unfold group_of. induction df as [|[k' c] rest IH]; [reflexivity|].
  simpl. destruct (keqb k' k) eqn:E; simpl; rewrite IH; [|reflexivity].
  apply keqb_eq in E. subst k'. reflexivity.
Qed.

Section Dropna.
(** [transform] under [dropna=True], for a function that maps its group
    cell by cell. *)
Variable isna : K -> bool.
Variable null : A.
Variable h : list A -> A -> A.
Variable f : list A -> list A.
Hypothesis f_maps : forall g, f g = map (h g) g.

Lemma reindex_filter {R : Type} (p : R -> bool) (new : R -> A) (df : list R) :
  reindex (map p df) (map new (filter p df)) null
  = map (fun r => if p r then new r else null) df.
Proof.
  induction df as [|r rest IH]; [reflexivity|].
  simpl. destruct (p r); simpl; rewrite IH; reflexivity.
Qed.

Lemma group_of_not_null (k : K) (df : list (K * A)) :
  isna k = false ->
  group_of keqb k (filter (fun r => negb (isna (fst r))) df)
  = group_of keqb k df.
Proof.
  intro Hk. unfold group_of.
  induction df as [|[k' c] rest IH]; [reflexivity|].
  simpl. destruct (keqb k' k) eqn:E.
  - apply keqb_eq in E. subst k'. rewrite Hk. simpl.
    rewrite keqb_refl. simpl. f_equal. exact IH.
  - destruct (isna k'); simpl; rewrite ?E; exact IH.
Qed.

Lemma combine_fst {B : Type} (g : K * A -> B) (df : list (K * A)) :
  combine (map fst df) (map g df) = map (fun r => (fst r, g r)) df.
Proof.
  induction df as [|r rest IH]; simpl; [reflexivity | rewrite IH; reflexivity].
Qed.

Lemma transform_dropna_pointwise (df : list (K * A)) :
  transform_dropna keqb isna null f df
  = map (fun r => if isna (fst r) then null
                  else h (group_of keqb (fst r) df) (snd r)) df.
Proof.
  unfold transform_dropna.
  rewrite (transform_pointwise h f f_maps).
  rewrite (reindex_filter (fun r => negb (isna (fst r)))
             (fun r => h (group_of keqb (fst r)
                            (filter (fun r => negb (isna (fst r))) df))
                         (snd r))).
  apply map_ext. intros [k c]. simpl.
  destruct (isna k) eqn:E; [reflexivity|]. simpl.
  rewrite group_of_not_null; [reflexivity | exact E].
Qed.

Lemma set_column_transform_dropna (df : list (K * A)) :
  set_column df (transform_dropna keqb isna null f df)
  = map (fun r => (fst r,
                   if isna (fst r) then null
                   else h (group_of keqb (fst r) df) (snd r))) df.
Proof.
  rewrite transform_dropna_pointwise. unfold set_column. apply combine_fst.
Qed.

End Dropna.

End Groupby.

Lemma assign_where_filter {R A : Type} (p : R -> bool) (old new : R -> A)
  (df : list R) :
  assign_where (map p df) (map old df) (map new (filter p df))
  = map (fun r => if p r then new r else old r) df.
Proof.
  induction df as [|r rest IH]; [reflexivity|].
  simpl. destruct (p r); simpl; rewrite IH; reflexivity.
Qed.

End FrameFacts.

(* ================================================================== *)
(** ** The strict propagation rule, for any reading of the cells *)

Module StrictFacts.
Import PyStr Strict.

Lemma in01_cases (x : string) : in01 x = true <-> x = "0" \/ x = "1".
Proof.
  unfold in01. rewrite orb_true_iff, !String.eqb_eq. reflexivity.
Qed.

Lemma set_add_In (x y : string) (s : list string) :
  In x (FillRecurring.set_add y s) <-> x = y \/ In x s.
Proof.
  unfold FillRecurring.set_add. destruct (existsb (String.eqb y) s) eqn:E.
  - apply existsb_exists in E. destruct E as [z [Hz Hyz]].
    apply String.eqb_eq in Hyz. subst z. intuition (subst; assumption).
  - rewrite in_app_iff. simpl. intuition congruence.
Qed.

Lemma set_add_NoDup (y : string) (s : list string) :
  NoDup s -> NoDup (FillRecurring.set_add y s).
Proof.
  intro H. unfold FillRecurring.set_add.
  destruct (existsb (String.eqb y) s) eqn:E; [exact H|].
  apply NoDup_app; [exact H | constructor; [intros [] | constructor] |].
  intros a Ha [Hy|[]]. subst a.
  assert (existsb (String.eqb y) s = true); [|congruence].
  apply existsb_exists. exists y. split; [exact Ha | apply String.eqb_refl].
Qed.

Lemma NoDup_singleton (v : string) (l : list string) :
  NoDup l -> In v l -> (forall x, In x l -> x = v) -> l = [v].
Proof.
  intros Hnd Hin Hall. destruct l as [|a [|b l]].
  - destruct Hin.
  - rewrite (Hall a (or_introl eq_refl)). reflexivity.
  - exfalso. inversion Hnd as [|? ? Hna _]; subst. apply Hna.
    rewrite (Hall a), <- (Hall b); simpl; auto.
Qed.

Section Reading.
Variable value : string -> string.
Variable keep : string -> bool.

(** The set of labels that both strict propagators collect, and what they
    return for a group. *)
Definition collect (group : list string) : list string :=
  fold_left
    (fun vals v => if in01 (value v) then FillRecurring.set_add (value v) vals
                   else vals)
    group [].

Definition fill (group : list string) : list string :=
  let vals := collect group in
  if length vals =? 1 then
    match vals with
    | v :: _ => map (fun c => if keep c then c else v) group
    | [] => group
    end
  else group.

(** The same, cell by cell. *)
Definition fill_cell (group : list string) (c : string) : string :=
  match one_value value group with
  | Some v => if keep c then c else v
  | None => c
  end.

Lemma has_In (v : string) (group : list string) :
  has value v group = true <-> exists c, In c group /\ value c = v.
Proof.
  unfold has. rewrite existsb_exists. split; intros [c [Hc Hv]]; exists c;
    (split; [exact Hc|]); apply String.eqb_eq; exact Hv.
Qed.

Lemma collect_from_In (x : string) (group acc : list string) :
  In x (fold_left
          (fun vals v => if in01 (value v)
                         then FillRecurring.set_add (value v) vals else vals)
          group acc)
  <-> In x acc \/ (in01 x = true /\ has value x group = true).
Proof.
  revert acc. induction group as [|a rest IH]; intro acc; simpl.
  - unfold has. simpl. intuition discriminate.
  - rewrite IH. unfold has. simpl. rewrite orb_true_iff, String.eqb_eq.
    fold (has value x rest).
    destruct (in01 (value a)) eqn:Ea.
    + rewrite set_add_In. intuition (subst; auto).
    + intuition (subst; congruence).
Qed.

Lemma collect_from_NoDup (group acc : list string) :
  NoDup acc ->
  NoDup (fold_left
           (fun vals v => if in01 (value v)
                          then FillRecurring.set_add (value v) vals else vals)
           group acc).
Proof.
  revert acc. induction group as [|a rest IH]; intros acc H; simpl; [exact H|].
  apply IH. destruct (in01 (value a)); [apply set_add_NoDup|]; exact H.
Qed.

Lemma collect_In (x : string) (group : list string) :
  In x (collect group) <-> in01 x = true /\ has value x group = true.
Proof.
  unfold collect. rewrite collect_from_In. simpl. tauto.
Qed.

Lemma collect_NoDup (group : list string) : NoDup (collect group).
Proof. apply collect_from_NoDup. constructor. Qed.

Lemma collect_one (v w : string) (group : list string) :
  (v = "0" /\ w = "1") \/ (v = "1" /\ w = "0") ->
  has value v group = true -> has value w group = false ->
  collect group = [v].
Proof.
  intros Hvw Hv Hw. apply NoDup_singleton.
  - apply collect_NoDup.
  - apply collect_In. split; [|exact Hv]. apply in01_cases. tauto.
  - intros x Hx. apply collect_In in Hx. destruct Hx as [H01 Hx].
    apply in01_cases in H01.
    destruct Hvw as [[-> ->]|[-> ->]]; destruct H01 as [->| ->];
      congruence.
Qed.

Lemma fill_pointwise (group : list string) :
  fill group = map (fill_cell group) group.
Proof.
  unfold fill, fill_cell, one_value.
  destruct (has value "0" group) eqn:H0; destruct (has value "1" group) eqn:H1.
  - (* a conflict: both values are collected *)
    assert (L : In "0" (collect group) /\ In "1" (collect group)).
    { split; apply collect_In; split; auto. }
    destruct (collect group) as [|a [|b l]] eqn:E; simpl;
      try (symmetry; apply map_id).
    destruct L as [[Ha|[]] [Hb|[]]]. congruence.
  - rewrite (collect_one "0" "1"); auto.
  - rewrite (collect_one "1" "0"); auto.
  - (* no label at all: nothing is collected *)
    destruct (collect group) as [|a l] eqn:E; simpl;
      [symmetry; apply map_id|].
    assert (Ha : In a (collect group)) by (rewrite E; left; reflexivity).
    apply collect_In in Ha. destruct Ha as [H01 Ha].
    apply in01_cases in H01. destruct H01; subst a; congruence.
Qed.

(** What the readings of the two propagators share. *)
Hypothesis keep_has_value : forall c, keep c = true -> in01 (value c) = true.
Hypothesis value_of_label : forall x, in01 x = true -> value x = x.

Lemma one_value_in01 (group : list string) (v : string) :
  one_value value group = Some v -> in01 v = true.
Proof.
  unfold one_value.
  destruct (has value "0" group), (has value "1" group); intro H;
    inversion H; reflexivity.
Qed.

(** Under a single value [v], every cell of the filled group reads [v] or
    reads as it did, and a cell with a label reads [v] already. *)
Lemma fill_cell_value (group : list string) (v c : string) :
  one_value value group = Some v -> In c group ->
  in01 (value c) = true -> value c = v.
Proof.
  unfold one_value. intros Hone Hin H01.
  assert (Hc : has value (value c) group = true).
  { apply has_In. exists c. auto. }
  apply in01_cases in H01.
  destruct (has value "0" group) eqn:H0; destruct (has value "1" group) eqn:H1;
    inversion Hone; subst v; destruct H01 as [E|E]; rewrite E in *; congruence.
Qed.

Lemma fill_cell_label (group : list string) (c : string) :
  In c group -> in01 (value c) = true ->
  value (fill_cell group c) = value c.
Proof.
  intros Hin H01. unfold fill_cell.
  destruct (one_value value group) as [v|] eqn:Hone; [|reflexivity].
  destruct (keep c); [reflexivity|].
  rewrite (fill_cell_value group v c Hone Hin H01).
  apply value_of_label. apply (one_value_in01 group). exact Hone.
Qed.

Lemma has_filled (group : list string) (v x : string) :
  one_value value group = Some v ->
  has value x (map (fill_cell group) group) = has value v group && String.eqb v x.
Proof.
  intro Hone. pose proof (one_value_in01 group v Hone) as Hv.
  assert (Hall : forall c, In c group -> value (fill_cell group c) = v).
  { intros c Hc. unfold fill_cell. rewrite Hone.
    destruct (keep c) eqn:Ek.
    - apply (fill_cell_value group v c Hone Hc). apply keep_has_value. exact Ek.
    - apply value_of_label. exact Hv. }
  assert (Hnonempty : has value v group = true).
  { unfold one_value in Hone.
    destruct (has value "0" group) eqn:H0; destruct (has value "1" group) eqn:H1;
      inversion Hone; subst; assumption. }
  rewrite Hnonempty. simpl.
  destruct (String.eqb v x) eqn:E.
  - apply String.eqb_eq in E. subst x.
    apply has_In in Hnonempty. destruct Hnonempty as [c [Hc _]].
    apply has_In. exists (fill_cell group c). split.
    + apply in_map. exact Hc.
    + apply Hall. exact Hc.
  - apply String.eqb_neq in E.
    destruct (has value x (map (fill_cell group) group)) eqn:Hx; [|reflexivity].
    apply has_In in Hx. destruct Hx as [c' [Hc' Hval]].
    apply in_map_iff in Hc'. destruct Hc' as [c [<- Hc]].
    rewrite (Hall c Hc) in Hval. contradiction.
Qed.

Lemma one_value_filled (group : list string) :
  one_value value (map (fill_cell group) group) = one_value value group.
Proof.
  destruct (one_value value group) as [v|] eqn:Hone.
  - unfold one_value at 1. rewrite !(has_filled group v _ Hone).
    unfold one_value in Hone.
    destruct (has value "0" group) eqn:H0; destruct (has value "1" group) eqn:H1;
      inversion Hone; subst v; rewrite ?H0, ?H1; reflexivity.
  - replace (map (fill_cell group) group) with group; [exact Hone|].
    symmetry. erewrite map_ext; [apply map_id|].
    intro c. unfold fill_cell. rewrite Hone. reflexivity.
Qed.

Lemma fill_cell_idempotent (group : list string) (c : string) :
  fill_cell (map (fill_cell group) group) (fill_cell group c)
  = fill_cell group c.
Proof.
  unfold fill_cell at 1. rewrite one_value_filled.
  unfold fill_cell. destruct (one_value value group) as [v|]; [|reflexivity].
  destruct (keep c) eqn:Ek; [rewrite Ek; reflexivity|].
  destruct (keep v); reflexivity.
Qed.

Lemma fill_idempotent (group : list string) : fill (fill group) = fill group.
Proof.
  rewrite !fill_pointwise, map_map.
  apply map_ext. intro c. apply fill_cell_idempotent.
Qed.

End Reading.

End StrictFacts.

(* ================================================================== *)
(** ** The two strict propagators *)

Module PropagatorFacts.
Import PyStr Strict StrictFacts.

(** How [svm_train_from_file.propagate] reads a cell: as it is. *)
Definition exact (v : string) : string := v.

Lemma clean_of_label (x : string) : in01 x = true -> FillRecurring.clean x = x.
Proof.
  intro H. apply in01_cases in H. destruct H; subst x; reflexivity.
Qed.

Lemma keeps_has_value (c : string) :
  FillRecurring.keeps c = true -> in01 (FillRecurring.clean c) = true.
Proof.
  unfold FillRecurring.keeps, FillRecurring.clean. intro H.
  apply in01_cases in H. destruct H as [H|H]; rewrite H; reflexivity.
Qed.

Lemma fill_recurring_propagate (group : list string) :
  FillRecurring.propagate group
  = map (fill_cell FillRecurring.clean FillRecurring.keeps group) group.
Proof.
  exact (fill_pointwise FillRecurring.clean FillRecurring.keeps group).
Qed.

Lemma trainer_propagate (group : list string) :
  Trainer.propagate group = map (fill_cell exact in01 group) group.
Proof. exact (fill_pointwise exact in01 group). Qed.

(** The label that the propagation step leaves in a row: a null where the
    row has no series key, the filled cell of its group elsewhere. *)
Definition row_label (value : string -> string) (keep : string -> bool)
  (df : list (Cell.cell * string)) (r : Cell.cell * string) : string :=
  if Cell.isna (fst r) then FillRecurring.missing
  else fill_cell value keep (Frame.group_of Cell.eqb (fst r) df) (snd r).

Lemma fill_recurring_labels_rows (df : list (Cell.cell * string)) :
  FillRecurring.fill_recurring_labels df
  = map (fun r =>
           (fst r, row_label FillRecurring.clean FillRecurring.keeps df r)) df.
Proof.
  apply FrameFacts.set_column_transform_dropna.
  - exact CellFacts.eqb_eq.
  - exact fill_recurring_propagate.
Qed.

Lemma trainer_propagate_labels_rows (df : list (Cell.cell * string)) :
  Trainer.propagate_labels df
  = map (fun r => (fst r, row_label exact in01 df r)) df.
Proof.
  apply FrameFacts.set_column_transform_dropna.
  - exact CellFacts.eqb_eq.
  - exact trainer_propagate.
Qed.

Lemma row_label_keyed (value : string -> string) (keep : string -> bool)
  (df : list (Cell.cell * string)) (k : Cell.cell) (c : string) :
  Cell.notna k = true ->
  row_label value keep df (k, c)
  = fill_cell value keep (Frame.group_of Cell.eqb k df) c.
Proof.
  unfold row_label, Cell.notna. simpl. intro H.
  apply negb_true_iff in H. rewrite H. reflexivity.
Qed.

Section Rule.
(** The strict rule on one row, for a propagator that fills cell by cell. *)
Variable value : string -> string.
Variable keep : string -> bool.
Hypothesis keep_has_value : forall c, keep c = true -> in01 (value c) = true.

Lemma rule_fill (group : list string) (v c : string) :
  one_value value group = Some v -> label_of value c = None ->
  fill_cell value keep group c = v.
Proof.
  unfold fill_cell, label_of. intros -> Hc.
  destruct (keep c) eqn:Ek; [|reflexivity].
  rewrite (keep_has_value c Ek) in Hc. discriminate.
Qed.

Lemma rule_conflict (group : list string) (c : string) :
  conflicting value group = true -> fill_cell value keep group c = c.
Proof.
  unfold fill_cell, one_value, conflicting. intro H.
  apply andb_true_iff in H. destruct H as [-> ->]. reflexivity.
Qed.

Lemma rule_unlabeled (group : list string) (c : string) :
  unlabeled value group = true -> fill_cell value keep group c = c.
Proof.
  unfold fill_cell, one_value, unlabeled. intro H.
  apply andb_true_iff in H. destruct H as [H0 H1].
  apply negb_true_iff in H0, H1. rewrite H0, H1. reflexivity.
Qed.

End Rule.

Lemma in01_has_value (c : string) : in01 c = true -> in01 (exact c) = true.
Proof. exact (fun H => H). Qed.

(** Every cell of the group that carries a label is written "0" or
    "1". *)
Definition plainly_written (group : list string) : bool :=
  forallb (fun c => implb (in01 (FillRecurring.clean c)) (in01 c)) group.

Lemma has_plainly_written (group : list string) (v : string) :
  plainly_written group = true -> in01 v = true ->
  has exact v group = has FillRecurring.clean v group.
Proof.
  intros Hp Hv. unfold plainly_written in Hp.
  rewrite forallb_forall in Hp.
  apply eq_true_iff_eq. rewrite !has_In. split; intros [c [Hc E]]; exists c;
    (split; [exact Hc|]).
  - unfold exact in E. subst c. apply clean_of_label. exact Hv.
  - specialize (Hp c Hc). rewrite E, Hv in Hp. simpl in Hp.
    unfold exact. rewrite <- (clean_of_label c Hp). exact E.
Qed.

Lemma one_value_plainly_written (group : list string) :
  plainly_written group = true ->
  one_value exact group = one_value FillRecurring.clean group.
Proof.
  intro Hp. unfold one_value.
  rewrite !(has_plainly_written group _ Hp); reflexivity.
Qed.

Lemma label_of_exact (c : string) :
  label_of FillRecurring.clean c = None -> label_of exact c = None.
Proof.
  unfold label_of, exact. destruct (in01 c) eqn:E; [|reflexivity].
  rewrite (clean_of_label c E), E. discriminate.
Qed.

(** C1, as the code has it. In [fill_recurring_labels], for the row at any
    index that has a series key and for the group of that key: when exactly
    one value in {0,1} occurs among the group's labels, a member with no
    label receives that value; when both occur, or none, the member's cell
    is unchanged. The propagation step of the trainer does the same in a
    group whose labels are written 0 or 1. Neither reports the conflicting
    series: there is no diagnostic. *)
Theorem C1_strict_propagation (df : list (Cell.cell * string)) (i : nat)
  (k : Cell.cell) (c : string) :
  nth_error df i = Some (k, c) ->
  Cell.notna k = true ->
  let group := Frame.group_of Cell.eqb k df in
  (exists c',
      nth_error (FillRecurring.fill_recurring_labels df) i = Some (k, c')
      /\ (forall v, one_value FillRecurring.clean group = Some v ->
                    label_of FillRecurring.clean c = None -> c' = v)
      /\ (conflicting FillRecurring.clean group = true -> c' = c)
      /\ (unlabeled FillRecurring.clean group = true -> c' = c))
  /\ (plainly_written group = true ->
      exists c',
        nth_error (Trainer.propagate_labels df) i = Some (k, c')
        /\ (forall v, one_value FillRecurring.clean group = Some v ->
                      label_of FillRecurring.clean c = None -> c' = v)
        /\ (conflicting FillRecurring.clean group = true -> c' = c)
        /\ (unlabeled FillRecurring.clean group = true -> c' = c))
  /\ FillRecurring.reported_conflicts df = [].
Proof.
  intros Hi Hk group. split; [|split; [|reflexivity]].
  - exists (fill_cell FillRecurring.clean FillRecurring.keeps group c).
    split; [|split; [|split]].
    + rewrite fill_recurring_labels_rows.
      rewrite nth_error_map, Hi. simpl.
      rewrite row_label_keyed; [reflexivity | exact Hk].
    + intro v. apply rule_fill. exact keeps_has_value.
    + apply rule_conflict.
    + apply rule_unlabeled.
  - intro Hp. exists (fill_cell exact in01 group c).
    split; [|split; [|split]].
    + rewrite trainer_propagate_labels_rows.
      rewrite nth_error_map, Hi. simpl.
      rewrite row_label_keyed; [reflexivity | exact Hk].
    + intros v Hv Hc. apply rule_fill.
      * exact in01_has_value.
      * rewrite one_value_plainly_written; assumption.
      * apply label_of_exact. exact Hc.
    + intro H. apply rule_conflict. unfold conflicting in *.
      rewrite !(has_plainly_written group _ Hp); [exact H | |]; reflexivity.
    + intro H. apply rule_unlabeled. unfold unlabeled in *.
      rewrite !(has_plainly_written group _ Hp); [exact H | |]; reflexivity.
Qed.

Lemma C1_strict_propagation_witness :
  let df := [(Cell.Str "E1", "1"); (Cell.Str "E1", "nan");
             (Cell.Str "E2", "0"); (Cell.Str "E2", "1")] in
  let group := Frame.group_of Cell.eqb (Cell.Str "E1") df in
  plainly_written group = true
  /\ one_value FillRecurring.clean group = Some "1"
  /\ label_of FillRecurring.clean "nan" = None
  /\ (exists c',
         nth_error (FillRecurring.fill_recurring_labels df) 1
         = Some (Cell.Str "E1", c')
         /\ (forall v, one_value FillRecurring.clean group = Some v ->
                       label_of FillRecurring.clean "nan" = None -> c' = v)
         /\ (conflicting FillRecurring.clean group = true -> c' = "nan")
         /\ (unlabeled FillRecurring.clean group = true -> c' = "nan"))
  /\ (plainly_written group = true ->
      exists c',
        nth_error (Trainer.propagate_labels df) 1 = Some (Cell.Str "E1", c')
        /\ (forall v, one_value FillRecurring.clean group = Some v ->
                      label_of FillRecurring.clean "nan" = None -> c' = v)
        /\ (conflicting FillRecurring.clean group = true -> c' = "nan")
        /\ (unlabeled FillRecurring.clean group = true -> c' = "nan"))
  /\ FillRecurring.reported_conflicts df = [].
Proof.
  split; [reflexivity|]. split; [reflexivity|]. split; [reflexivity|].
  exact (C1_strict_propagation
           [(Cell.Str "E1", "1"); (Cell.Str "E1", "nan");
            (Cell.Str "E2", "0"); (Cell.Str "E2", "1")]
           1 (Cell.Str "E1") "nan" eq_refl eq_refl).
Defined.

(** C1 fails as stated. The series "s" holds the labels 0 and 1, so it
    conflicts; [fill_recurring_labels] leaves it as it is, as claimed, but
    reports no conflicting series: it gives back the frame and nothing
    else. *)
Lemma C1_counterexample :
  let df := [(Cell.Str "s", "0"); (Cell.Str "s", "1"); (Cell.Str "s", "nan")] in
  In (Cell.Str "s") (conflicting_series FillRecurring.clean df)
  /\ FillRecurring.fill_recurring_labels df = df
  /\ ~ In (Cell.Str "s") (FillRecurring.reported_conflicts df).
Proof.
  split; [|split].
  - vm_compute. auto.
  - reflexivity.
  - intros [].
Qed.

Lemma trainer_vals_skip (g1 g2 : list string) (c : string) :
  in01 c = false -> Trainer.vals (g1 ++ c :: g2) = Trainer.vals (g1 ++ g2).
Proof.
  intro H. unfold Trainer.vals. rewrite !fold_left_app. simpl.
  rewrite H. reflexivity.
Qed.

(** C10. In the propagation step of the trainer a member whose label is
    rendered "0.0" or "1.0" adds nothing to the set of values of its group,
    carries no label as that step reads it, and is overwritten with the
    value of the group when the group has exactly one, as in the group
    "1.0", "0"; yet the row selection that follows takes "0.0" and "1.0"
    for labels. *)
Theorem C10_float_rendered_labels (g1 g2 : list string) (c : string) :
  c = "0.0" \/ c = "1.0" ->
  Trainer.vals (g1 ++ c :: g2) = Trainer.vals (g1 ++ g2)
  /\ label_of exact c = None
  /\ (forall v, one_value exact (g1 ++ c :: g2) = Some v ->
                nth (length g1) (Trainer.propagate (g1 ++ c :: g2)) c = v)
  /\ Trainer.propagate ["1.0"; "0"] = ["0"; "0"]
  /\ Trainer.labeled_mask c = true.
Proof.
  intro Hc.
  assert (H01 : in01 c = false) by (destruct Hc; subst c; reflexivity).
  split; [apply trainer_vals_skip; exact H01|].
  split; [unfold label_of, exact; rewrite H01; reflexivity|].
  split; [|split; [reflexivity | destruct Hc; subst c; reflexivity]].
  intros v Hv. rewrite trainer_propagate, map_app. simpl.
  rewrite <- (length_map (fill_cell exact in01 (g1 ++ c :: g2)) g1).
  rewrite nth_middle. unfold fill_cell. rewrite Hv, H01. reflexivity.
Qed.

Lemma C10_float_rendered_labels_witness :
  Trainer.vals (["nan"] ++ "1.0" :: ["0"]) = Trainer.vals (["nan"] ++ ["0"])
  /\ label_of exact "1.0" = None
  /\ (forall v, one_value exact (["nan"] ++ "1.0" :: ["0"]) = Some v ->
                nth (length ["nan"])
                    (Trainer.propagate (["nan"] ++ "1.0" :: ["0"])) "1.0" = v)
  /\ Trainer.propagate ["1.0"; "0"] = ["0"; "0"]
  /\ Trainer.labeled_mask "1.0" = true.
Proof.
  exact (C10_float_rendered_labels ["nan"] ["0"] "1.0" (or_intror eq_refl)).
Defined.

(** C6 fails on [fill_recurring_labels]: it groups the rows whose
    [series_id] is the empty string like any other series, so the label of
    one such row fills the other. *)
Lemma C6_empty_key_is_propagated :
  FillRecurring.fill_recurring_labels
    [(Cell.Str "", "1"); (Cell.Str "", "nan")]
  = [(Cell.Str "", "1"); (Cell.Str "", "1")]
  /\ Trainer.propagate_labels [(Cell.Str "", "1"); (Cell.Str "", "nan")]
     = [(Cell.Str "", "1"); (Cell.Str "", "1")].
Proof. split; reflexivity. Qed.

End PropagatorFacts.

(* ================================================================== *)
(** ** The majority propagation of [merge_and_propagate_labels.py] *)

Module MajorityFacts.
Import Cell CellFacts MergePropagate.

(** The value that [propagate_series] fills a group with, when it fills. *)
Definition fill_value (group : list cell) : option cell :=
  let labeled := filter notna group in
  if length labeled =? 0 then None
  else if 0 <? length (mode labeled) then mode_first labeled
  else None.

Definition fill_cell (group : list cell) (c : cell) : cell :=
  match fill_value group with
  | Some v => fillna c v
  | None => c
  end.

Lemma propagate_series_pointwise (group : list cell) :
  propagate_series group = map (fill_cell group) group.
Proof.
  unfold propagate_series, fill_cell, fill_value.
  destruct (length (filter notna group) =? 0); [symmetry; apply map_id|].
  destruct (0 <? length (mode (filter notna group)));
    [|symmetry; apply map_id].
  destruct (mode_first (filter notna group));
    [reflexivity | symmetry; apply map_id].
Qed.

Lemma fill_value_notna (group : list cell) (v : cell) :
  fill_value group = Some v -> notna v = true.
Proof.
  unfold fill_value.
  destruct (length (filter notna group) =? 0); [discriminate|].
  destruct (0 <? length (mode (filter notna group))); [|discriminate].
  intro H. apply mode_first_In in H. apply filter_In in H. apply H.
Qed.

Lemma fill_cell_notna (group : list cell) (c : cell) :
  notna c = true -> fill_cell group c = c.
Proof.
  intro H. unfold fill_cell. destruct (fill_value group); [|reflexivity].
  apply fillna_notna. exact H.
Qed.

Lemma fill_cell_isna (group : list cell) (c : cell) :
  fill_cell group c = NaN -> c = NaN.
Proof.
  unfold fill_cell. destruct (fill_value group); [|auto].
  apply fillna_isna.
Qed.

Lemma filled_cell_stable (group : list cell) (c : cell) :
  fill_cell (map (fill_cell group) group) (fill_cell group c)
  = fill_cell group c.
Proof.
  destruct (fill_value group) as [v|] eqn:E.
  - apply fill_cell_notna. unfold fill_cell. rewrite E.
    pose proof (fill_value_notna group v E) as Hv.
    destruct c; [exact Hv | reflexivity | reflexivity].
  - assert (Hid : map (fill_cell group) group = group).
    { erewrite map_ext; [apply map_id|].
      intro a. unfold fill_cell. rewrite E. reflexivity. }
    rewrite Hid. unfold fill_cell. rewrite E. reflexivity.
Qed.

Lemma propagate_series_idempotent (group : list cell) :
  propagate_series (propagate_series group) = propagate_series group.
Proof.
  rewrite !propagate_series_pointwise, map_map.
  apply map_ext. intro c. apply filled_cell_stable.
Qed.

Lemma group_of_valid (k : cell) (df : list (cell * cell)) :
  valid_series k = true ->
  Frame.group_of eqb k (filter (fun r => valid_series (fst r)) df)
  = Frame.group_of eqb k df.
Proof.
  intro Hk. unfold Frame.group_of.
  induction df as [|[k' c] rest IH]; [reflexivity|].
  simpl. destruct (eqb k' k) eqn:E.
  - apply eqb_eq in E. subst k'. rewrite Hk. simpl.
    rewrite eqb_refl. simpl. f_equal. exact IH.
  - destruct (valid_series k'); simpl; rewrite ?E; exact IH.
Qed.

(** The cell that step 2 leaves in a row. *)
Definition propagated (df : list (cell * cell)) (k c : cell) : cell :=
  if valid_series k then fill_cell (Frame.group_of eqb k df) c else c.

Lemma propagate_valid_rows (df : list (cell * cell)) :
  propagate_valid df = map (fun r => propagated df (fst r) (snd r)) df.
Proof.
  unfold propagate_valid.
  rewrite (FrameFacts.transform_pointwise eqb eqb_eq fill_cell
             propagate_series propagate_series_pointwise).
  rewrite (FrameFacts.assign_where_filter
             (fun r => valid_series (fst r)) snd
             (fun r => fill_cell
                         (Frame.group_of eqb (fst r)
                            (filter (fun r => valid_series (fst r)) df))
                         (snd r))).
  apply map_ext. intros [k c]. unfold propagated. simpl.
  destruct (valid_series k) eqn:E; [|reflexivity].
  rewrite group_of_valid; [reflexivity | exact E].
Qed.

Lemma propagated_notna (df : list (cell * cell)) (k c : cell) :
  notna c = true -> propagated df k c = c.
Proof.
  intro H. unfold propagated. destruct (valid_series k); [|reflexivity].
  apply fill_cell_notna. exact H.
Qed.

Lemma propagated_isna (df : list (cell * cell)) (k c : cell) :
  propagated df k c = NaN -> c = NaN.
Proof.
  unfold propagated. destruct (valid_series k); [|auto].
  apply fill_cell_isna.
Qed.

Lemma combine_fst_map {R B : Type} (f : R -> cell) (g : R -> B) (l : list R) :
  combine (map f l) (map g l) = map (fun r => (f r, g r)) l.
Proof. induction l as [|a r IH]; simpl; [reflexivity | rewrite IH; reflexivity]. Qed.

Lemma combine_self_map {R B : Type} (g : R -> B) (l : list R) :
  combine l (map g l) = map (fun r => (r, g r)) l.
Proof. induction l as [|a r IH]; simpl; [reflexivity | rewrite IH; reflexivity]. Qed.

Lemma propagated_idempotent (df : list (cell * cell)) (k c : cell) :
  propagated (map (fun r => (fst r, propagated df (fst r) (snd r))) df) k
             (propagated df k c)
  = propagated df k c.
Proof.
  unfold propagated at 1.
  destruct (valid_series k) eqn:E; [|reflexivity].
  rewrite (FrameFacts.group_of_rewritten eqb eqb_eq (propagated df)).
  unfold propagated. rewrite E. apply filled_cell_stable.
Qed.

(** Step 2 on a frame, with the column written back. *)
Definition propagate_frame (df : list (cell * cell)) : list (cell * cell) :=
  Frame.set_column df (propagate_valid df).

Lemma propagate_frame_rows (df : list (cell * cell)) :
  propagate_frame df
  = map (fun r => (fst r, propagated df (fst r) (snd r))) df.
Proof.
  unfold propagate_frame, Frame.set_column.
  rewrite propagate_valid_rows, combine_fst_map. reflexivity.
Qed.

Lemma propagate_frame_idempotent (df : list (cell * cell)) :
  propagate_frame (propagate_frame df) = propagate_frame df.
Proof.
  rewrite (propagate_frame_rows (propagate_frame df)).
  rewrite !propagate_frame_rows, map_map. simpl.
  apply map_ext. intros [k c]. simpl. f_equal.
  apply propagated_idempotent.
Qed.

(** The frame of keys and merged labels that [main] propagates in. *)
Definition merged (df : list row) : list (cell * cell) :=
  map (fun r => (series_id r, merge (label r) (predicted_label r))) df.

Lemma main_rows (df : list row) :
  main df
  = map (fun r =>
           mkRow (series_id r)
                 (propagated (merged df) (series_id r)
                    (merge (label r) (predicted_label r)))
                 (predicted_label r)) df.
Proof.
  unfold main. rewrite combine_fst_map. fold (merged df).
  rewrite propagate_valid_rows. unfold merged at 2.
  rewrite map_map. simpl. rewrite combine_self_map, map_map. reflexivity.
Qed.

Lemma merged_main (df : list row) :
  merged (main df)
  = map (fun r => (fst r, propagated (merged df) (fst r) (snd r))) (merged df).
Proof.
  rewrite main_rows. unfold merged. rewrite !map_map. simpl.
  fold (merged df). apply map_ext. intro r. f_equal.
  destruct (propagated (merged df) (series_id r)
              (merge (label r) (predicted_label r))) eqn:E;
    [|reflexivity|reflexivity].
  apply propagated_isna in E.
  destruct (label r); simpl in *; [exact E | discriminate | discriminate].
Qed.

Lemma main_idempotent (df : list row) : main (main df) = main df.
Proof.
  rewrite (main_rows (main df)), merged_main.
  rewrite (main_rows df) at 1. rewrite map_map. simpl.
  rewrite main_rows. apply map_ext. intro r. f_equal.
  assert (Hm : merge (propagated (merged df) (series_id r)
                        (merge (label r) (predicted_label r)))
                     (predicted_label r)
               = propagated (merged df) (series_id r)
                   (merge (label r) (predicted_label r))).
  { destruct (propagated (merged df) (series_id r)
                (merge (label r) (predicted_label r))) eqn:E;
      [|reflexivity|reflexivity].
    apply propagated_isna in E.
    destruct (label r); simpl in *; [exact E | discriminate | discriminate]. }
  rewrite Hm. apply propagated_idempotent.
Qed.

End MajorityFacts.

(* ================================================================== *)
(** ** The majority propagation of [auto_label_and_train.py] *)

Module AutoLabelFacts.
Import Cell CellFacts AutoLabel.

(** The labels of the series [k] in the frame. *)
Definition labels_of (df : list row) (k : cell) : list cell :=
  filter notna (map label (filter (fun r => eqb (series_id r) k) df)).

(** The loop changes the series [k]: the key is not null and some member
    has a label. *)
Definition active (df : list row) (k : cell) : bool :=
  notna k && (0 <? length (labels_of df k)).

Definition majority (df : list row) (k : cell) : cell :=
  match mode_first (labels_of df k) with
  | Some m => m
  | None => hd NaN (labels_of df k)
  end.

(** The row that the round for an active series leaves in place of a
    member. *)
Definition overwritten (df : list row) (r : row) : row :=
  mkRow (uid r) (series_id r) (majority df (series_id r))
        (Str "series_propagation").

Definition round (df0 : list row) (r : row) (k : cell) : row :=
  if active df0 k && eqb (series_id r) k then overwritten df0 r else r.

Lemma propagate_group_rows (df0 df : list row) (k : cell) :
  propagate_group df0 df k = map (fun r => round df0 r k) df.
Proof.
  unfold propagate_group, round, active, overwritten, majority, labels_of, notna.
  destruct (isna k); simpl; [symmetry; apply map_id|].
  destruct (0 <? _) eqn:E; simpl; [|symmetry; apply map_id].
  apply map_ext. intro r. destruct (eqb (series_id r) k) eqn:Ek; [|reflexivity].
  apply eqb_eq in Ek. rewrite Ek. reflexivity.
Qed.

Lemma rounds_rows (df0 : list row) (ks : list cell) (df : list row) :
  fold_left (propagate_group df0) ks df
  = map (fun r => fold_left (round df0) ks r) df.
Proof.
  revert df. induction ks as [|k ks IH]; intro df; simpl.
  - symmetry. apply map_id.
  - rewrite IH, propagate_group_rows, map_map. reflexivity.
Qed.

Lemma rounds_row (df0 : list row) (ks : list cell) (r : row) :
  fold_left (round df0) ks r
  = if existsb (eqb (series_id r)) ks && active df0 (series_id r)
    then overwritten df0 r else r.
Proof.
  revert r. induction ks as [|k ks IH]; intro r; simpl; [reflexivity|].
  rewrite IH. unfold round.
  destruct (eqb (series_id r) k) eqn:Ek.
  - apply eqb_eq in Ek. subst k. rewrite andb_true_r.
    destruct (active df0 (series_id r)) eqn:Ea; simpl.
    + rewrite Ea, andb_true_r.
      destruct (existsb _ ks); reflexivity.
    + rewrite Ea, andb_false_r. reflexivity.
  - rewrite andb_false_r. reflexivity.
Qed.

Lemma propagate_rows_pointwise (df : list row) :
  propagate_rows df
  = map (fun r => if active df (series_id r) then overwritten df r else r) df.
Proof.
  unfold propagate_rows. rewrite rounds_rows.
  apply map_ext_in. intros r Hr. rewrite rounds_row.
  assert (H : existsb (eqb (series_id r)) (unique (map series_id df)) = true).
  { apply existsb_exists. exists (series_id r). split; [|apply eqb_refl].
    apply unique_In, in_map, Hr. }
  rewrite H. reflexivity.
Qed.

(** A list that repeats one value has that value for its first mode. *)
Lemma unique_constant (m : cell) (l : list cell) :
  (forall x, In x l -> x = m) -> unique l = match l with [] => [] | _ => [m] end.
Proof.
  induction l as [|a r IH]; intro H; [reflexivity|].
  simpl. rewrite (H a (or_introl eq_refl)).
  rewrite IH by (intros x Hx; apply H; right; exact Hx).
  destruct r; simpl; [reflexivity | rewrite eqb_refl; reflexivity].
Qed.

Lemma count_constant (m : cell) (l : list cell) :
  (forall x, In x l -> x = m) -> count m l = length l.
Proof.
  unfold count. induction l as [|a r IH]; intro H; [reflexivity|].
  simpl. rewrite (H a (or_introl eq_refl)), eqb_refl. simpl.
  rewrite IH by (intros x Hx; apply H; right; exact Hx). reflexivity.
Qed.

Lemma mode_first_constant (m : cell) (l : list cell) :
  l <> [] -> (forall x, In x l -> x = m) -> mode_first l = Some m.
Proof.
  intros Hne H. unfold mode_first, mode, max_count.
  rewrite (unique_constant m l H). destruct l as [|a r]; [contradiction|].
  cbn [fold_right filter]. rewrite Nat.max_0_r, Nat.eqb_refl. reflexivity.
Qed.

(** What the loop of [propagate_series_labels] makes of one row. *)
Definition propagated_row (df : list row) (r : row) : row :=
  if active df (series_id r) then overwritten df r else r.

Lemma propagated_row_key (df : list row) (r : row) :
  series_id (propagated_row df r) = series_id r.
Proof. unfold propagated_row. destruct (active df (series_id r)); reflexivity. Qed.

Lemma majority_notna (df : list row) (k : cell) :
  active df k = true -> notna (majority df k) = true.
Proof.
  unfold active, majority. intro H. apply andb_true_iff in H.
  destruct H as [_ H]. apply Nat.ltb_lt in H.
  assert (Hin : In (match mode_first (labels_of df k) with
                    | Some m => m
                    | None => hd NaN (labels_of df k)
                    end) (labels_of df k)).
  { destruct (mode_first (labels_of df k)) eqn:E.
    - apply mode_first_In. exact E.
    - destruct (labels_of df k); [simpl in H; lia | left; reflexivity]. }
  unfold labels_of in Hin at 2. apply filter_In in Hin. apply Hin.
Qed.

Lemma group_propagated (df : list row) (k : cell) :
  filter (fun r => eqb (series_id r) k) (map (propagated_row df) df)
  = map (propagated_row df) (filter (fun r => eqb (series_id r) k) df).
Proof.
  rewrite filter_map_swap. f_equal. apply filter_ext. intro r.
  rewrite propagated_row_key. reflexivity.
Qed.

Lemma labels_of_propagated (df : list row) (k : cell) :
  labels_of (map (propagated_row df) df) k
  = if active df k
    then map (fun _ => majority df k)
             (filter (fun r => eqb (series_id r) k) df)
    else labels_of df k.
Proof.
  unfold labels_of at 1. rewrite group_propagated, map_map.
  destruct (active df k) eqn:Ea.
  - pose proof (majority_notna df k Ea) as Hm.
    assert (Hmap : map (fun r => label (propagated_row df r))
                       (filter (fun r => eqb (series_id r) k) df)
                   = map (fun _ => majority df k)
                         (filter (fun r => eqb (series_id r) k) df)).
    { apply map_ext_in. intros r Hr. apply filter_In in Hr.
      destruct Hr as [_ Hk]. apply eqb_eq in Hk.
      unfold propagated_row. rewrite Hk, Ea. simpl. rewrite Hk. reflexivity. }
    rewrite Hmap. clear Hmap.
    induction (filter (fun r => eqb (series_id r) k) df) as [|a l IH];
      [reflexivity|].
    simpl. rewrite Hm, IH. reflexivity.
  - unfold labels_of. f_equal. apply map_ext_in. intros r Hr.
    apply filter_In in Hr. destruct Hr as [_ Hk]. apply eqb_eq in Hk.
    unfold propagated_row. rewrite Hk, Ea. reflexivity.
Qed.

Lemma active_propagated (df : list row) (k : cell) :
  active (map (propagated_row df) df) k = active df k.
Proof.
  unfold active at 1. rewrite labels_of_propagated.
  destruct (active df k) eqn:Ea; [|exact Ea].
  unfold active in Ea. apply andb_true_iff in Ea. destruct Ea as [Hk Hl].
  rewrite Hk. simpl. rewrite length_map.
  apply Nat.ltb_lt. apply Nat.ltb_lt in Hl. unfold labels_of in Hl.
  pose proof (filter_length_le notna
                (map label (filter (fun r => eqb (series_id r) k) df))) as Hle.
  rewrite length_map in Hle. lia.
Qed.

Lemma majority_propagated (df : list row) (k : cell) :
  active df k = true ->
  majority (map (propagated_row df) df) k = majority df k.
Proof.
  intro Ea. unfold majority at 1. rewrite labels_of_propagated, Ea.
  rewrite (mode_first_constant (majority df k)); [reflexivity | |].
  - pose proof (active_propagated df k) as H. rewrite Ea in H.
    unfold active in H. rewrite labels_of_propagated, Ea in H.
    apply andb_true_iff in H. destruct H as [_ H]. apply Nat.ltb_lt in H.
    intro E. rewrite E in H. simpl in H. lia.
  - intros x Hx. apply in_map_iff in Hx. destruct Hx as [_ [Hx _]].
    symmetry. exact Hx.
Qed.

Lemma propagate_rows_idempotent (df : list row) :
  propagate_rows (propagate_rows df) = propagate_rows df.
Proof.
  rewrite (propagate_rows_pointwise (propagate_rows df)).
  rewrite propagate_rows_pointwise.
  fold (propagated_row df).
  change (map (fun r => propagated_row df r) df) with (map (propagated_row df) df).
  rewrite map_map. apply map_ext. intro r.
  rewrite propagated_row_key, active_propagated.
  destruct (active df (series_id r)) eqn:Ea; [|reflexivity].
  unfold overwritten at 1. rewrite propagated_row_key.
  rewrite (majority_propagated df (series_id r) Ea).
  unfold propagated_row. rewrite Ea. reflexivity.
Qed.

Lemma propagated_row_uid (df : list row) (r : row) :
  uid (propagated_row df r) = uid r.
Proof. unfold propagated_row. destruct (active df (series_id r)); reflexivity. Qed.

Lemma propagate_rows_keys (df : list row) :
  map series_id (propagate_rows df) = map series_id df.
Proof.
  rewrite propagate_rows_pointwise. fold (propagated_row df).
  rewrite map_map. apply map_ext. intro r. apply propagated_row_key.
Qed.

Lemma propagate_rows_uids (df : list row) :
  map uid (propagate_rows df) = map uid df.
Proof.
  rewrite propagate_rows_pointwise. fold (propagated_row df).
  rewrite map_map. apply map_ext. intro r. apply propagated_row_uid.
Qed.

(** No series is active in a frame whose keys are all null. *)
Lemma propagate_rows_no_key (df : list row) :
  forallb isna (map series_id df) = true -> propagate_rows df = df.
Proof.
  intro H. rewrite propagate_rows_pointwise.
  rewrite <- (map_id df) at 2. apply map_ext_in. intros r Hr.
  rewrite forallb_forall in H. specialize (H (series_id r) (in_map _ _ _ Hr)).
  unfold active, notna. rewrite H. reflexivity.
Qed.

Lemma rebuild_series_id_keys (df : list row) :
  map series_id (rebuild_series_id df)
  = map (fun r => SeriesNumber.extract_series_id (uid r)) df.
Proof. unfold rebuild_series_id. rewrite map_map. reflexivity. Qed.

Lemma rebuild_series_id_idempotent (df : list row) :
  rebuild_series_id (rebuild_series_id df) = rebuild_series_id df.
Proof. unfold rebuild_series_id. rewrite map_map. reflexivity. Qed.

(** The keys that the propagation works with are those of the frame when
    it has some, and are read off the uids otherwise. *)
Lemma with_series_id_again (df : frame) :
  with_series_id (mkFrame true (propagate_rows (with_series_id df)))
  = propagate_rows (with_series_id df).
Proof.
  unfold with_series_id at 1. simpl.
  rewrite propagate_rows_keys.
  destruct (forallb isna (map series_id (with_series_id df))) eqn:E;
    [|reflexivity].
  rewrite (propagate_rows_no_key _ E).
  unfold with_series_id in *.
  destruct (negb (has_series_id df) || forallb isna (map series_id (rows df)))
    eqn:B.
  - apply rebuild_series_id_idempotent.
  - apply orb_false_iff in B. destruct B as [_ B]. congruence.
Qed.

Lemma propagate_series_labels_idempotent (df : frame) :
  propagate_series_labels (propagate_series_labels df)
  = propagate_series_labels df.
Proof.
  unfold propagate_series_labels at 1 2.
  rewrite with_series_id_again, propagate_rows_idempotent. reflexivity.
Qed.

End AutoLabelFacts.

(* ================================================================== *)
(** ** Existing labels and repeated runs *)

Module PropagationFacts.
Import PyStr Strict StrictFacts PropagatorFacts.

Section Frames.
(** A strict propagator over a frame, for a reading of the cells. *)
Variable value : string -> string.
Variable keep : string -> bool.
Hypothesis keep_has_value : forall c, keep c = true -> in01 (value c) = true.
Hypothesis value_of_label : forall x, in01 x = true -> value x = x.

Definition filled (df : list (Cell.cell * string))
  : list (Cell.cell * string) :=
  map (fun r => (fst r, row_label value keep df r)) df.

Lemma filled_idempotent (df : list (Cell.cell * string)) :
  filled (filled df) = filled df.
Proof.
  unfold filled at 1. unfold filled at 2. rewrite map_map. simpl.
  apply map_ext. intros [k c]. simpl. f_equal.
  fold (filled df). unfold row_label at 1. simpl.
  destruct (Cell.isna k) eqn:Ek.
  - unfold row_label. simpl. rewrite Ek. reflexivity.
  - unfold filled.
    rewrite (FrameFacts.group_of_rewritten Cell.eqb CellFacts.eqb_eq
               (fun k c => row_label value keep df (k, c))).
    unfold row_label. simpl. rewrite Ek.
    apply fill_cell_idempotent; assumption.
Qed.

Lemma filled_keeps_label (df : list (Cell.cell * string)) (i : nat)
  (k : Cell.cell) (c b : string) :
  nth_error df i = Some (k, c) -> Cell.notna k = true ->
  label_of value c = Some b ->
  exists c', nth_error (filled df) i = Some (k, c')
             /\ label_of value c' = Some b.
Proof.
  intros Hi Hk Hb.
  exists (fill_cell value keep (Frame.group_of Cell.eqb k df) c). split.
  - unfold filled. rewrite nth_error_map, Hi. simpl.
    rewrite row_label_keyed; [reflexivity | exact Hk].
  - unfold label_of in *. destruct (in01 (value c)) eqn:E; [|discriminate].
    rewrite (fill_cell_label value keep value_of_label); [rewrite E; exact Hb | | exact E].
    apply (FrameFacts.group_of_In Cell.eqb CellFacts.eqb_eq).
    apply nth_error_In with i. exact Hi.
Qed.

End Frames.

Lemma fill_recurring_labels_idempotent (df : list (Cell.cell * string)) :
  FillRecurring.fill_recurring_labels (FillRecurring.fill_recurring_labels df)
  = FillRecurring.fill_recurring_labels df.
Proof.
  rewrite (fill_recurring_labels_rows (FillRecurring.fill_recurring_labels df)).
  rewrite fill_recurring_labels_rows.
  apply (filled_idempotent FillRecurring.clean FillRecurring.keeps
           keeps_has_value clean_of_label).
Qed.

Lemma trainer_propagate_labels_idempotent (df : list (Cell.cell * string)) :
  Trainer.propagate_labels (Trainer.propagate_labels df)
  = Trainer.propagate_labels df.
Proof.
  rewrite (trainer_propagate_labels_rows (Trainer.propagate_labels df)).
  rewrite trainer_propagate_labels_rows.
  apply (filled_idempotent exact in01 in01_has_value (fun x _ => eq_refl)).
Qed.

(** C3. Propagation is idempotent: a second run of [fill_recurring_labels]
    on its own result changes nothing, whether or not the rows have a series
    key, and so for its function [propagate] on a group; the same holds of
    [propagate_series] of [merge_and_propagate_labels.py] on a group, of its
    step 2 on a frame and of its whole [main], of the propagation step of
    the trainer, and of [propagate_series_labels] of
    [auto_label_and_train.py], the step that reads the keys off the uids
    included. *)
Theorem C3_propagation_idempotent (df : list (Cell.cell * string))
  (group : list string) (cells : list Cell.cell)
  (frame : list (Cell.cell * Cell.cell)) (rows : list MergePropagate.row)
  (events : AutoLabel.frame) :
  FillRecurring.fill_recurring_labels (FillRecurring.fill_recurring_labels df)
  = FillRecurring.fill_recurring_labels df
  /\ FillRecurring.propagate (FillRecurring.propagate group)
     = FillRecurring.propagate group
  /\ MergePropagate.propagate_series (MergePropagate.propagate_series cells)
     = MergePropagate.propagate_series cells
  /\ MajorityFacts.propagate_frame (MajorityFacts.propagate_frame frame)
     = MajorityFacts.propagate_frame frame
  /\ MergePropagate.main (MergePropagate.main rows) = MergePropagate.main rows
  /\ Trainer.propagate_labels (Trainer.propagate_labels df)
     = Trainer.propagate_labels df
  /\ AutoLabel.propagate_series_labels (AutoLabel.propagate_series_labels events)
     = AutoLabel.propagate_series_labels events.
Proof.
  split; [apply fill_recurring_labels_idempotent|].
  split; [apply (fill_idempotent FillRecurring.clean FillRecurring.keeps
                   keeps_has_value clean_of_label)|].
  split; [apply MajorityFacts.propagate_series_idempotent|].
  split; [apply MajorityFacts.propagate_frame_idempotent|].
  split; [apply MajorityFacts.main_idempotent|].
  split; [apply trainer_propagate_labels_idempotent|].
  apply AutoLabelFacts.propagate_series_labels_idempotent.
Qed.

(** A run that fills, and its second run; the row without a series key
    loses its label in the first. *)
Example second_run_changes_nothing :
  FillRecurring.fill_recurring_labels
    [(Cell.Str "E1", "1.0"); (Cell.Str "E1", "nan"); (Cell.Str "E1", " 1");
     (Cell.NaN, "1"); (Cell.Str "E2", "0"); (Cell.Str "E2", "1")]
  = [(Cell.Str "E1", "1.0"); (Cell.Str "E1", "1"); (Cell.Str "E1", "1");
     (Cell.NaN, "nan"); (Cell.Str "E2", "0"); (Cell.Str "E2", "1")]
  /\ FillRecurring.fill_recurring_labels
       [(Cell.Str "E1", "1.0"); (Cell.Str "E1", "1"); (Cell.Str "E1", "1");
        (Cell.NaN, "nan"); (Cell.Str "E2", "0"); (Cell.Str "E2", "1")]
     = [(Cell.Str "E1", "1.0"); (Cell.Str "E1", "1"); (Cell.Str "E1", "1");
        (Cell.NaN, "nan"); (Cell.Str "E2", "0"); (Cell.Str "E2", "1")].
Proof. split; reflexivity. Qed.

(** The same for [propagate_series_labels] on a frame without a
    [series_id] column: the first run reads the keys off the uids, the
    second finds them in the frame. *)
Example second_run_finds_the_keys :
  let df := AutoLabel.mkFrame false
              [AutoLabel.mkRow (Cell.Str "e?series_id=7&n=1") Cell.NaN
                               (Cell.Num 1) Cell.NaN;
               AutoLabel.mkRow (Cell.Str "e?series_id=7&n=2") Cell.NaN
                               Cell.NaN Cell.NaN;
               AutoLabel.mkRow (Cell.Str "single") Cell.NaN
                               Cell.NaN Cell.NaN] in
  let out := AutoLabel.mkFrame true
              [AutoLabel.mkRow (Cell.Str "e?series_id=7&n=1") (Cell.Num 7)
                               (Cell.Num 1) (Cell.Str "series_propagation");
               AutoLabel.mkRow (Cell.Str "e?series_id=7&n=2") (Cell.Num 7)
                               (Cell.Num 1) (Cell.Str "series_propagation");
               AutoLabel.mkRow (Cell.Str "single") Cell.NaN
                               Cell.NaN Cell.NaN] in
  AutoLabel.propagate_series_labels df = out
  /\ AutoLabel.propagate_series_labels out = out.
Proof. split; reflexivity. Qed.

End PropagationFacts.

Module ExistingLabels.
Import PyStr Strict StrictFacts PropagatorFacts PropagationFacts.
Import Cell.

Lemma merge_main_keeps (df : list MergePropagate.row) (i : nat)
  (r : MergePropagate.row) :
  nth_error df i = Some r ->
  notna (MergePropagate.merge (MergePropagate.label r)
           (MergePropagate.predicted_label r)) = true ->
  exists r',
    nth_error (MergePropagate.main df) i = Some r'
    /\ MergePropagate.series_id r' = MergePropagate.series_id r
    /\ MergePropagate.label r'
       = MergePropagate.merge (MergePropagate.label r)
           (MergePropagate.predicted_label r).
Proof.
  intros Hi Hn. rewrite MajorityFacts.main_rows, nth_error_map, Hi. simpl.
  eexists. split; [reflexivity|]. split; [reflexivity|]. simpl.
  apply MajorityFacts.propagated_notna. exact Hn.
Qed.

(** C2, as the code has it. A row that has a series key and carries a label
    in {0,1} before [fill_recurring_labels] carries the same label after it;
    the propagation step of the trainer leaves unchanged, in a row with a
    series key, every cell whose text is exactly 0 or 1;
    [merge_and_propagate_labels.main] leaves in every row whose merged
    label is not null that merged label. [propagate_series_labels] of
    [auto_label_and_train.py] does otherwise: with the keys of the frame,
    or those read off the uids when the frame has none, it sets every row of
    a series with a key and some label to the majority label of the series
    and marks it as propagated, and leaves the other rows as they are. *)
Theorem C2_existing_labels :
  (forall (df : list (cell * string)) (i : nat) (k : cell) (c b : string),
      nth_error df i = Some (k, c) ->
      notna k = true ->
      label_of FillRecurring.clean c = Some b ->
      exists c',
        nth_error (FillRecurring.fill_recurring_labels df) i = Some (k, c')
        /\ label_of FillRecurring.clean c' = Some b)
  /\ (forall (df : list (cell * string)) (i : nat) (k : cell) (c b : string),
         nth_error df i = Some (k, c) ->
         notna k = true ->
         label_of exact c = Some b ->
         nth_error (Trainer.propagate_labels df) i = Some (k, c))
  /\ (forall (df : list MergePropagate.row) (i : nat) (r : MergePropagate.row),
         nth_error df i = Some r ->
         notna (MergePropagate.merge (MergePropagate.label r)
                  (MergePropagate.predicted_label r)) = true ->
         exists r',
           nth_error (MergePropagate.main df) i = Some r'
           /\ MergePropagate.series_id r' = MergePropagate.series_id r
           /\ MergePropagate.label r'
              = MergePropagate.merge (MergePropagate.label r)
                  (MergePropagate.predicted_label r))
  /\ (forall (df : AutoLabel.frame) (i : nat) (r : AutoLabel.row),
         let keyed := AutoLabel.with_series_id df in
         nth_error keyed i = Some r ->
         nth_error (AutoLabel.rows (AutoLabel.propagate_series_labels df)) i
         = Some (if AutoLabelFacts.active keyed (AutoLabel.series_id r)
                 then AutoLabel.mkRow (AutoLabel.uid r) (AutoLabel.series_id r)
                        (AutoLabelFacts.majority keyed (AutoLabel.series_id r))
                        (Str "series_propagation")
                 else r)).
Proof.
  split; [|split; [|split]].
  - intros df i k c b Hi Hk Hb. rewrite fill_recurring_labels_rows.
    apply (filled_keeps_label FillRecurring.clean FillRecurring.keeps
             clean_of_label df i k c b Hi Hk Hb).
  - intros df i k c b Hi Hk Hb. rewrite trainer_propagate_labels_rows.
    rewrite nth_error_map, Hi. simpl.
    rewrite (row_label_keyed _ _ _ _ _ Hk). unfold fill_cell.
    unfold label_of, exact in Hb.
    destruct (in01 c) eqn:E; [|discriminate].
    destruct (one_value exact _); reflexivity.
  - exact merge_main_keeps.
  - intros df i r keyed Hi. unfold AutoLabel.propagate_series_labels. simpl.
    fold keyed. rewrite AutoLabelFacts.propagate_rows_pointwise.
    rewrite nth_error_map, Hi. reflexivity.
Qed.

Lemma C2_existing_labels_witness :
  exists c',
    nth_error
      (FillRecurring.fill_recurring_labels [(Str "s", " 1"); (Str "s", "nan")]) 0
    = Some (Str "s", c')
    /\ label_of FillRecurring.clean c' = Some "1".
Proof.
  exact (proj1 C2_existing_labels [(Str "s", " 1"); (Str "s", "nan")] 0
           (Str "s") " 1" "1" eq_refl eq_refl eq_refl).
Defined.

(** C2 fails as stated: in [auto_label_and_train.py] the third row of the
    series 7 carries the label 0 before the propagation and the label 1,
    the majority of its series, after it. *)
Lemma C2_counterexample :
  let df := AutoLabel.mkFrame true
              [AutoLabel.mkRow (Str "a") (Num 7) (Num 1) NaN;
               AutoLabel.mkRow (Str "b") (Num 7) (Num 1) NaN;
               AutoLabel.mkRow (Str "c") (Num 7) (Num 0) NaN] in
  nth_error (AutoLabel.rows df) 2
  = Some (AutoLabel.mkRow (Str "c") (Num 7) (Num 0) NaN)
  /\ nth_error (AutoLabel.rows (AutoLabel.propagate_series_labels df)) 2
     = Some (AutoLabel.mkRow (Str "c") (Num 7) (Num 1)
               (Str "series_propagation")).
Proof. split; reflexivity. Qed.

End ExistingLabels.

(* ================================================================== *)
(** ** The series key *)

Module ResolverFacts.
Import PyStr Resolver.
Local Open Scope string_scope.

Definition not_newline (c : ascii) : bool := negb (Ascii.eqb c newline).
Definition not_query_mark (c : ascii) : bool := negb (is_query_mark c).
Definition is_slash (c : ascii) : bool := Ascii.eqb "/" c.

(** The string is empty or begins with a question mark or a hash. *)
Definition query_tail (s : string) : bool :=
  match s with
  | EmptyString => true
  | String c _ => is_query_mark c
  end.

Lemma keep_key_chars_alphabet (s : string) :
  all_chars is_key_char (keep_key_chars s) = true.
Proof.
  induction s as [|c r IH]; simpl; [reflexivity|].
  destruct (is_key_char c) eqn:E; simpl; [rewrite E|]; exact IH.
Qed.

Lemma rstrip_by_split (p : ascii -> bool) (s : string) :
  exists suffix,
    s = rstrip_by p s ++ suffix /\ all_chars p suffix = true.
Proof.
  induction s as [|c r [suffix [Hs Hp]]]; simpl.
  - exists EmptyString. auto.
  - destruct (rstrip_by p r) as [|d r'] eqn:E.
    + destruct (p c) eqn:Ec.
      * exists (String c suffix). simpl in Hs. subst r. simpl.
        rewrite Ec. auto.
      * exists suffix. simpl in *. subst r. auto.
    + exists suffix. split; [|exact Hp].
      change (String c r = String c (String d r' ++ suffix)).
      rewrite <- Hs. reflexivity.
Qed.

Lemma rstrip_by_last (p : ascii -> bool) (s : string) (c : ascii) :
  last_char (rstrip_by p s) = Some c -> p c = false.
Proof.
  induction s as [|a r IH]; simpl; [discriminate|].
  destruct (rstrip_by p r) as [|d r'] eqn:E.
  - destruct (p a) eqn:Ea; simpl; [discriminate|].
    intro H. inversion H. subst c. exact Ea.
  - intro H. apply IH. exact H.
Qed.

Lemma all_chars_app (p : ascii -> bool) (s t : string) :
  all_chars p (s ++ t) = all_chars p s && all_chars p t.
Proof.
  induction s as [|c r IH]; simpl; [reflexivity|].
  rewrite IH, andb_assoc. reflexivity.
Qed.

Lemma lstrip_by_all (p q : ascii -> bool) (s : string) :
  all_chars q s = true -> all_chars q (lstrip_by p s) = true.
Proof.
  induction s as [|c r IH]; simpl; [auto|].
  intro H. apply andb_true_iff in H. destruct H as [Hc Hr].
  destruct (p c); [auto | simpl; rewrite Hc; exact Hr].
Qed.

Lemma rstrip_by_all (p q : ascii -> bool) (s : string) :
  all_chars q s = true -> all_chars q (rstrip_by p s) = true.
Proof.
  intro H. destruct (rstrip_by_split p s) as [suffix [Hs _]].
  rewrite Hs, all_chars_app in H. apply andb_true_iff in H. apply H.
Qed.

Lemma strip_all (q : ascii -> bool) (s : string) :
  all_chars q s = true -> all_chars q (strip s) = true.
Proof. intro H. apply rstrip_by_all, lstrip_by_all, H. Qed.

Lemma dot_star_dollar_line (r : string) :
  all_chars not_newline r = true -> dot_star_dollar r = Some EmptyString.
Proof.
  induction r as [|c r IH]; simpl; [reflexivity|].
  unfold not_newline at 1. intro H. apply andb_true_iff in H.
  destruct H as [Hc Hr]. apply negb_true_iff in Hc. rewrite Hc. auto.
Qed.

(** On a single line the substitution cuts the string at its first
    question mark or hash. *)
Lemma strip_query_split (u : string) :
  all_chars not_newline u = true ->
  exists tail,
    u = strip_query u ++ tail
    /\ query_tail tail = true
    /\ all_chars not_query_mark (strip_query u) = true.
Proof.
  induction u as [|c r IH]; simpl; intro H.
  - exists EmptyString. auto.
  - apply andb_true_iff in H. destruct H as [Hc Hr].
    destruct (is_query_mark c) eqn:Eq.
    + rewrite (dot_star_dollar_line r Hr).
      exists (String c r). simpl. auto.
    + destruct (IH Hr) as [tail [Hu [Ht Ha]]].
      exists tail. simpl. rewrite <- Hu. unfold not_query_mark at 1.
      rewrite Eq. auto.
Qed.

Lemma append_nonempty (s t : string) : s ++ "|" ++ t <> EmptyString.
Proof. destruct s; simpl; discriminate. Qed.

Lemma lstrip_collapse (s : string) (b : bool) :
  lstrip_by is_space (collapse_ws_from b s)
  = collapse_ws_from false (lstrip_by is_space s).
Proof.
  revert b. induction s as [|c r IH]; intro b; [reflexivity|].
  simpl. destruct (is_space c) eqn:E.
  - destruct b; simpl; [apply IH|].
    change (is_space " "%char) with true. cbv iota. apply IH.
  - simpl. rewrite E. reflexivity.
Qed.

Lemma split_lstrip (s : string) :
  split (lstrip_by is_space s) = split s.
Proof.
  induction s as [|c r IH]; [reflexivity|].
  simpl. destruct (is_space c) eqn:E; [exact IH|].
  simpl. rewrite E. reflexivity.
Qed.

Lemma lstrip_head (s : string) :
  match lstrip_by is_space s with
  | EmptyString => True
  | String c _ => is_space c = false
  end.
Proof.
  induction s as [|c r IH]; simpl; [exact I|].
  destruct (is_space c) eqn:E; [exact IH | exact E].
Qed.

Lemma split_head (c : ascii) (r : string) :
  is_space c = false -> exists w ws, split (String c r) = String c w :: ws.
Proof.
  intro E. simpl. rewrite E. destruct r as [|d r'].
  - exists EmptyString, []. reflexivity.
  - destruct (is_space d).
    + exists EmptyString, (split (String d r')). reflexivity.
    + destruct (split (String d r')) as [|w ws].
      * exists EmptyString, []. reflexivity.
      * exists w, ws. reflexivity.
Qed.

Lemma join_spaces_cons (c : ascii) (w : string) (ws : list string) :
  join_spaces (String c w :: ws) = String c (join_spaces (w :: ws)).
Proof. simpl. destruct ws; reflexivity. Qed.

Lemma collapse_nonspace (b : bool) (d : ascii) (r : string) :
  is_space d = false ->
  collapse_ws_from b (String d r) = String d (collapse_ws_from false r).
Proof. intro E. simpl. rewrite E. reflexivity. Qed.

Lemma rstrip_by_cons (p : ascii -> bool) (c d : ascii) (x y : string) :
  rstrip_by p x = String d y -> rstrip_by p (String c x) = String c (String d y).
Proof. intro H. simpl. rewrite H. reflexivity. Qed.

(** What is left of a collapsed string once the white space at its end is
    taken off: the words and single spaces between them. *)
Lemma rstrip_collapse (r : string) :
  (forall c, is_space c = false ->
     rstrip_by is_space (collapse_ws_from false (String c r))
     = join_spaces (split (String c r)))
  /\ rstrip_by is_space (String " " (collapse_ws_from true r))
     = match split r with
       | [] => EmptyString
       | ws => String " " (join_spaces ws)
       end.
Proof.
  induction r as [|d r' [IHG IHH]].
  - split; [|reflexivity].
    intros c E. simpl. rewrite E. simpl. rewrite E. reflexivity.
  - assert (G : is_space d = false ->
                exists w ws, split (String d r') = String d w :: ws
                /\ rstrip_by is_space (collapse_ws_from false (String d r'))
                   = String d (join_spaces (w :: ws))).
    { intro Ed. destruct (split_head d r' Ed) as [w [ws Hs]].
      exists w, ws. split; [exact Hs|].
      rewrite (IHG d Ed), Hs. apply join_spaces_cons. }
    split.
    + intros c E. destruct (is_space d) eqn:Ed.
      * change (collapse_ws_from false (String c (String d r')))
          with (if is_space c
                then String " " (collapse_ws_from true (String d r'))
                else String c (collapse_ws_from false (String d r'))).
        rewrite E.
        change (collapse_ws_from false (String d r'))
          with (if is_space d then String " " (collapse_ws_from true r')
                else String d (collapse_ws_from false r')).
        rewrite Ed.
        change (split (String c (String d r')))
          with (if is_space c then split (String d r')
                else if is_space d then String c EmptyString :: split (String d r')
                     else match split (String d r') with
                          | w :: ws => String c w :: ws
                          | [] => [String c EmptyString]
                          end).
        rewrite E, Ed.
        change (split (String d r'))
          with (if is_space d then split r'
                else match r' with
                     | EmptyString => [String d EmptyString]
                     | String d0 _ =>
                         if is_space d0 then String d EmptyString :: split r'
                         else match split r' with
                              | w :: ws => String d w :: ws
                              | [] => [String d EmptyString]
                              end
                     end).
        rewrite Ed.
        destruct (split r') as [|w ws] eqn:Hs.
        -- change (rstrip_by is_space (String c (String " " (collapse_ws_from true r'))))
             with (match rstrip_by is_space (String " " (collapse_ws_from true r')) with
                   | EmptyString => if is_space c then EmptyString else String c EmptyString
                   | String a b => String c (String a b)
                   end).
           rewrite IHH, E. reflexivity.
        -- change (rstrip_by is_space (String c (String " " (collapse_ws_from true r'))))
             with (match rstrip_by is_space (String " " (collapse_ws_from true r')) with
                   | EmptyString => if is_space c then EmptyString else String c EmptyString
                   | String a b => String c (String a b)
                   end).
           rewrite IHH. reflexivity.
      * destruct (G eq_refl) as [w [ws [Hs Hr]]].
        change (collapse_ws_from false (String c (String d r')))
          with (if is_space c
                then String " " (collapse_ws_from true (String d r'))
                else String c (collapse_ws_from false (String d r'))).
        rewrite E. rewrite (rstrip_by_cons _ c _ _ _ Hr).
        change (split (String c (String d r')))
          with (if is_space c then split (String d r')
                else if is_space d then String c EmptyString :: split (String d r')
                     else match split (String d r') with
                          | w :: ws => String c w :: ws
                          | [] => [String c EmptyString]
                          end).
        rewrite E, Ed, Hs. rewrite !join_spaces_cons. reflexivity.
    + destruct (is_space d) eqn:Ed.
      * change (collapse_ws_from true (String d r'))
          with (if is_space d then collapse_ws_from true r'
                else String d (collapse_ws_from false r')).
        rewrite Ed, IHH.
        change (split (String d r'))
          with (if is_space d then split r'
                else match r' with
                     | EmptyString => [String d EmptyString]
                     | String d0 _ =>
                         if is_space d0 then String d EmptyString :: split r'
                         else match split r' with
                              | w :: ws => String d w :: ws
                              | [] => [String d EmptyString]
                              end
                     end).
        rewrite Ed. reflexivity.
      * destruct (G eq_refl) as [w [ws [Hs Hr]]].
        rewrite (collapse_nonspace true d r' Ed).
        rewrite (collapse_nonspace false d r' Ed) in Hr.
        rewrite (rstrip_by_cons _ " "%char _ _ _ Hr), Hs.
        rewrite join_spaces_cons. reflexivity.
Qed.

Lemma strip_collapse_ws (s : string) :
  strip (collapse_ws s) = join_spaces (split s).
Proof.
  unfold strip, collapse_ws. rewrite lstrip_collapse, <- split_lstrip.
  pose proof (lstrip_head s) as H.
  destruct (lstrip_by is_space s) as [|c r]; [reflexivity|].
  apply (proj1 (rstrip_collapse r)). exact H.
Qed.

(** [_norm_str] does what the specification words. *)
Lemma norm_str_spec (s : string) : _norm_str s = spec_norm_str s.
Proof. unfold _norm_str, spec_norm_str. rewrite strip_collapse_ws. reflexivity. Qed.

Lemma str_or_empty_text (s : string) : str_or_empty (PStr s) = s.
Proof. destruct s; reflexivity. Qed.

Lemma make_series_id_row_cases (e : event) :
  let uid := strip (str (ev_uid e)) in
  let url := _norm_url (str_or_empty (ev_url e)) in
  make_series_id_row e
  = if negb (String.eqb uid EmptyString) then uid
    else if negb (String.eqb url EmptyString) then url
         else _norm_str (str_or_empty (ev_title e)) ++ "|"
              ++ _norm_str (str_or_empty (ev_location e)).
Proof.
  unfold make_series_id_row, where_not. cbv zeta.
  destruct (String.eqb (strip (str (ev_uid e))) EmptyString) eqn:Eu; simpl.
  - destruct (String.eqb (_norm_url (str_or_empty (ev_url e))) EmptyString);
      reflexivity.
  - rewrite Eu. reflexivity.
Qed.

Lemma make_series_id_row_nonempty (e : event) :
  make_series_id_row e <> EmptyString.
Proof.
  rewrite make_series_id_row_cases. cbv zeta.
  destruct (String.eqb (strip (str (ev_uid e))) EmptyString) eqn:Eu; simpl.
  - destruct (String.eqb (_norm_url (str_or_empty (ev_url e))) EmptyString)
      eqn:El; simpl.
    + apply append_nonempty.
    + apply String.eqb_neq. exact El.
  - apply String.eqb_neq. exact Eu.
Qed.

Lemma text_key_cases (uid url title location : string) :
  make_series_id_row (text_event uid url title location)
  = if negb (String.eqb (strip uid) EmptyString) then strip uid
    else if negb (String.eqb (_norm_url url) EmptyString) then _norm_url url
         else _norm_str title ++ "|" ++ _norm_str location.
Proof.
  rewrite make_series_id_row_cases. unfold text_event. simpl.
  rewrite !str_or_empty_text. reflexivity.
Qed.

Lemma norm_url_shape (u : string) :
  all_chars not_newline u = true ->
  exists slashes tail,
    strip u = _norm_url u ++ slashes ++ tail
    /\ all_chars is_slash slashes = true
    /\ query_tail tail = true
    /\ all_chars not_query_mark (_norm_url u) = true.
Proof.
  intro H. unfold _norm_url.
  destruct (String.eqb (strip u) EmptyString) eqn:E.
  - apply String.eqb_eq in E. rewrite E.
    exists EmptyString, EmptyString. auto.
  - destruct (strip_query_split (strip u) (strip_all _ _ H))
      as [tail [Hu [Ht Ha]]].
    destruct (rstrip_by_split (Ascii.eqb "/") (strip_query (strip u)))
      as [slashes [Hs Hp]].
    exists slashes, tail. split; [|split; [exact Hp|split; [exact Ht|]]].
    + unfold rstrip_slash.
      rewrite Hu at 1. rewrite Hs at 1.
      generalize (rstrip_by (Ascii.eqb "/") (strip_query (strip u))).
      intro n. induction n as [|c n IH]; simpl; [reflexivity|].
      rewrite IH. reflexivity.
    + apply rstrip_by_all. exact Ha.
Qed.

Lemma norm_url_no_trailing_slash (u : string) :
  last_char (_norm_url u) <> Some "/"%char.
Proof.
  unfold _norm_url.
  destruct (String.eqb (strip u) EmptyString); [discriminate|].
  intro H. apply rstrip_by_last in H. discriminate.
Qed.

(** A url, title or location that may be [None]. *)
Definition or_none (field : option string) : pyval :=
  match field with
  | Some s => PStr s
  | None => PNone
  end.

Definition text_of (field : option string) : string :=
  match field with
  | Some s => s
  | None => EmptyString
  end.

Lemma str_or_empty_or_none (field : option string) :
  str_or_empty (or_none field) = text_of field.
Proof. destruct field as [s|]; [apply str_or_empty_text | reflexivity]. Qed.

(** C5, as the code has it, for an event whose fields are strings. The key
    is got by ordered fallback: the trimmed uid when that is not empty;
    otherwise the normalised url when that is not empty; otherwise the
    normalised title, a bar and the normalised location. The key is never
    empty, and two events with the same four fields have the same key. A
    url, title or location that is [None] counts as the empty string. The
    normalisation of a title or location lower-cases it, leaves its words
    joined by single spaces, and then removes what is outside [a-z0-9 ],
    so that the result holds only such characters. A normalised url does
    not end in a slash, and for a url on one line it is the trimmed url cut
    before its first question mark or hash and without the slashes then
    left at its end. The key is the one that the specification words
    whenever the uid is present, the url is empty, or the url does not
    normalise to the empty string. *)
Theorem C5_series_key (uid url title location : string) :
  let e := text_event uid url title location in
  let uid' := strip uid in
  let url' := _norm_url url in
  let title' := _norm_str title in
  let loc' := _norm_str location in
  make_series_id_row e
  = (if negb (String.eqb uid' EmptyString) then uid'
     else if negb (String.eqb url' EmptyString) then url'
          else title' ++ "|" ++ loc')
  /\ make_series_id_row e <> EmptyString
  /\ (forall e1 e2 : event,
         ev_uid e1 = ev_uid e2 -> ev_url e1 = ev_url e2 ->
         ev_title e1 = ev_title e2 -> ev_location e1 = ev_location e2 ->
         make_series_id_row e1 = make_series_id_row e2)
  /\ (forall u t l : option string,
         make_series_id_row (mkEvent (PStr uid) (or_none u) (or_none t) (or_none l))
         = make_series_id_row (text_event uid (text_of u) (text_of t) (text_of l)))
  /\ title' = keep_key_chars (join_spaces (split (lower title)))
  /\ loc' = keep_key_chars (join_spaces (split (lower location)))
  /\ lower "ABCDEFGHIJKLMNOPQRSTUVWXYZ" = "abcdefghijklmnopqrstuvwxyz"
  /\ _norm_str "  Story   TIME,  at 9! " = "story time at 9"
  /\ _norm_str "Yoga - Beach" = "yoga  beach"
  /\ all_chars is_key_char title' = true
  /\ all_chars is_key_char loc' = true
  /\ last_char url' <> Some "/"%char
  /\ (all_chars not_newline url = true ->
      exists slashes tail,
        strip url = url' ++ slashes ++ tail
        /\ all_chars is_slash slashes = true
        /\ query_tail tail = true
        /\ all_chars not_query_mark url' = true)
  /\ (uid' <> EmptyString \/ url = EmptyString \/ url' <> EmptyString ->
      spec_series_key e = make_series_id_row e).
Proof.
  intros e uid' url' title' loc'.
  split; [apply text_key_cases|].
  split; [apply make_series_id_row_nonempty|].
  split.
  { intros [u1 u2 u3 u4] [v1 v2 v3 v4] H1 H2 H3 H4. simpl in *. subst.
    reflexivity. }
  split.
  { intros u t l. rewrite !make_series_id_row_cases. unfold text_event.
    simpl. rewrite !str_or_empty_or_none, !str_or_empty_text. reflexivity. }
  split; [apply norm_str_spec|].
  split; [apply norm_str_spec|].
  split; [reflexivity|].
  split; [reflexivity|].
  split; [reflexivity|].
  split; [apply keep_key_chars_alphabet|].
  split; [apply keep_key_chars_alphabet|].
  split; [apply norm_url_no_trailing_slash|].
  split; [apply norm_url_shape|].
  intro H. unfold e. rewrite text_key_cases. unfold spec_series_key, text_event.
  simpl. fold uid' url'. rewrite <- !norm_str_spec. fold title' loc'.
  destruct (String.eqb uid' EmptyString) eqn:Eu; simpl; [|reflexivity].
  apply String.eqb_eq in Eu.
  destruct (String.eqb url EmptyString) eqn:El; simpl.
  - apply String.eqb_eq in El. unfold url'. rewrite El. reflexivity.
  - destruct (String.eqb url' EmptyString) eqn:En; simpl; [|reflexivity].
    apply String.eqb_eq in En. apply String.eqb_neq in El.
    destruct H as [H|[H|H]]; congruence.
Qed.

Lemma C5_series_key_witness :
  let e := text_event "" " https://x/y/?ref=abc " "Story  Time!"
             "Perdido Library" in
  make_series_id_row e = "https://x/y"
  /\ _norm_str "Story  Time!" = "story time"
  /\ (all_chars not_newline " https://x/y/?ref=abc " = true ->
      exists slashes tail,
        strip " https://x/y/?ref=abc "
        = _norm_url " https://x/y/?ref=abc " ++ slashes ++ tail
        /\ all_chars is_slash slashes = true
        /\ query_tail tail = true
        /\ all_chars not_query_mark (_norm_url " https://x/y/?ref=abc ") = true)
  /\ spec_series_key e = make_series_id_row e.
Proof.
  pose proof (C5_series_key "" " https://x/y/?ref=abc " "Story  Time!"
                "Perdido Library") as H.
  cbv zeta in H.
  destruct H as [H1 [_ [_ [_ [H5 [_ [_ [_ [_ [_ [_ [_ [H13 H14]]]]]]]]]]]]].
  split; [exact H1|]. split; [exact H5|]. split; [exact H13|].
  apply H14. right. right. discriminate.
Defined.

(** C5 fails as stated: the url "#top" is present, and with its fragment
    stripped it is empty, which is the key that the specification words;
    the code falls through to the title and the location. *)
Lemma C5_counterexample :
  let e := text_event "" "#top" "Yoga" "Park" in
  ev_url e = PStr "#top"
  /\ spec_series_key e = EmptyString
  /\ make_series_id_row e = "yoga|park".
Proof. repeat split. Qed.

(** The scenario of the specification: a url with a query string and the
    same url without it give one series. *)
Example same_series_after_stripping :
  make_series_id_row (text_event "" "https://x/y?ref=abc" "a" "b")
  = make_series_id_row (text_event "" "https://x/y" "c" "d").
Proof. reflexivity. Qed.

End ResolverFacts.

(* ================================================================== *)
(** * Further properties *)

(** ** Urls that normalise alike *)

Module UrlFacts.
Import PyStr Resolver ResolverFacts.
Local Open Scope string_scope.

Lemma append_assoc (a b c : string) : (a ++ b) ++ c = a ++ b ++ c.
Proof. induction a as [|x a IH]; simpl; [reflexivity | rewrite IH; reflexivity]. Qed.

Lemma append_empty_r (a : string) : a ++ "" = a.
Proof. induction a as [|x a IH]; simpl; [reflexivity | rewrite IH; reflexivity]. Qed.

Lemma rstrip_by_length (p : ascii -> bool) (s : string) :
  String.length (rstrip_by p s) <= String.length s.
Proof.
  induction s as [|c r IH]; simpl; [lia|].
  destruct (rstrip_by p r); [destruct (p c)|]; simpl in *; lia.
Qed.

Lemma lstrip_by_length (p : ascii -> bool) (s : string) :
  String.length (lstrip_by p s) <= String.length s.
Proof.
  induction s as [|c r IH]; simpl; [lia|].
  destruct (p c); simpl; lia.
Qed.

(** A string that [strip] leaves alone neither begins nor ends with white
    space. *)
Lemma trimmed_lstrip (u : string) : strip u = u -> lstrip_by is_space u = u.
Proof.
  unfold strip. destruct u as [|c r]; [reflexivity|]. simpl.
  destruct (is_space c); [|reflexivity].
  intro H. exfalso.
  pose proof (rstrip_by_length is_space (lstrip_by is_space r)) as H1.
  pose proof (lstrip_by_length is_space r) as H2.
  rewrite H in H1. simpl in H1. lia.
Qed.

Lemma trimmed_rstrip (u : string) : strip u = u -> rstrip_by is_space u = u.
Proof.
  intro H. pose proof (trimmed_lstrip u H) as Hl.
  unfold strip in H. rewrite Hl in H. exact H.
Qed.

Lemma rstrip_by_app_keep (p : ascii -> bool) (s t : string) :
  rstrip_by p t <> "" -> rstrip_by p (s ++ t) = s ++ rstrip_by p t.
Proof.
  intro Ht. induction s as [|c r IH]; simpl; [reflexivity|].
  rewrite IH. destruct (r ++ rstrip_by p t) eqn:E; [|reflexivity].
  destruct r; simpl in E; [contradiction | discriminate].
Qed.

Lemma rstrip_by_app_drop (p : ascii -> bool) (s t : string) :
  all_chars p t = true -> rstrip_by p (s ++ t) = rstrip_by p s.
Proof.
  intro Ht.
  assert (Hd : rstrip_by p t = "").
  { induction t as [|c r IH]; simpl in *; [reflexivity|].
    apply andb_true_iff in Ht. destruct Ht as [Hc Hr].
    rewrite (IH Hr), Hc. reflexivity. }
  induction s as [|c r IH]; simpl; [exact Hd | rewrite IH; reflexivity].
Qed.

Lemma rstrip_by_head (p : ascii -> bool) (c : ascii) (q : string) :
  p c = false -> rstrip_by p (String c q) = String c (rstrip_by p q).
Proof.
  intro H. simpl. destruct (rstrip_by p q); [rewrite H|]; reflexivity.
Qed.

Lemma rstrip_by_none (p : ascii -> bool) (t : string) :
  all_chars (fun c => negb (p c)) t = true -> rstrip_by p t = t.
Proof.
  induction t as [|c r IH]; simpl; [reflexivity|].
  intro H. apply andb_true_iff in H. destruct H as [Hc Hr].
  apply negb_true_iff in Hc. rewrite (IH Hr).
  destruct r; [rewrite Hc|]; reflexivity.
Qed.

Lemma mark_not_space (c : ascii) : is_query_mark c = true -> is_space c = false.
Proof.
  unfold is_query_mark. intro H. apply orb_true_iff in H.
  destruct H as [H|H]; apply Ascii.eqb_eq in H; subst c; reflexivity.
Qed.

Lemma slash_not_space (c : ascii) : is_slash c = true -> is_space c = false.
Proof.
  unfold is_slash. intro H. apply Ascii.eqb_eq in H. subst c. reflexivity.
Qed.

Lemma slash_not_mark (c : ascii) : is_slash c = true -> not_query_mark c = true.
Proof.
  unfold is_slash. intro H. apply Ascii.eqb_eq in H. subst c. reflexivity.
Qed.

Lemma all_chars_impl (p q : ascii -> bool) (s : string) :
  (forall c, p c = true -> q c = true) ->
  all_chars p s = true -> all_chars q s = true.
Proof.
  intro Hpq. induction s as [|c r IH]; simpl; [auto|].
  intro H. apply andb_true_iff in H. destruct H as [Hc Hr].
  rewrite (Hpq c Hc), (IH Hr). reflexivity.
Qed.

(** The substitution leaves a string without marks alone, and cuts a tail
    that opens with a mark and stays on the line. *)
Lemma strip_query_cut (a tail : string) :
  all_chars not_query_mark a = true ->
  query_tail tail = true -> all_chars not_newline tail = true ->
  strip_query (a ++ tail) = a.
Proof.
  intros Ha Ht Hn. induction a as [|c r IH]; simpl in *.
  - destruct tail as [|m q]; [reflexivity|]. simpl in *. rewrite Ht.
    apply andb_true_iff in Hn. destruct Hn as [_ Hq].
    rewrite (dot_star_dollar_line q Hq). reflexivity.
  - apply andb_true_iff in Ha. destruct Ha as [Hc Hr].
    unfold not_query_mark in Hc. apply negb_true_iff in Hc.
    rewrite Hc, (IH Hr). reflexivity.
Qed.

Lemma strip_extended (u slashes tail : string) :
  u <> "" -> strip u = u ->
  all_chars is_slash slashes = true -> query_tail tail = true ->
  strip (u ++ slashes ++ tail)
  = u ++ slashes ++ rstrip_by is_space tail.
Proof.
  intros Hne Hu Hs Ht.
  assert (Hl : lstrip_by is_space (u ++ slashes ++ tail) = u ++ slashes ++ tail).
  { pose proof (trimmed_lstrip u Hu) as H. destruct u as [|c r]; [contradiction|].
    simpl in *. destruct (is_space c); [|reflexivity].
    exfalso. pose proof (lstrip_by_length is_space r) as L.
    rewrite H in L. simpl in L. lia. }
  unfold strip. rewrite Hl.
  destruct tail as [|m q].
  - simpl. rewrite !append_empty_r. destruct slashes as [|s ss].
    + rewrite append_empty_r. apply trimmed_rstrip. exact Hu.
    + rewrite rstrip_by_app_keep; rewrite rstrip_by_none;
        try reflexivity; try discriminate;
        apply (all_chars_impl is_slash); auto;
        intros c Hc; rewrite (slash_not_space c Hc); reflexivity.
  - simpl in Ht. pose proof (mark_not_space m Ht) as Hm.
    rewrite <- append_assoc.
    rewrite rstrip_by_app_keep; rewrite (rstrip_by_head is_space m q Hm);
      [|discriminate].
    rewrite append_assoc. reflexivity.
Qed.

(** The normalised url of a trimmed url without marks is not changed by
    slashes added at its end, nor by a query string or a fragment, on one
    line, added after them. *)
Theorem norm_url_extended (u slashes tail : string) :
  u <> "" -> strip u = u ->
  all_chars not_query_mark u = true ->
  all_chars is_slash slashes = true ->
  query_tail tail = true -> all_chars not_newline tail = true ->
  _norm_url (u ++ slashes ++ tail) = _norm_url u.
Proof.
  intros Hne Hu Hm Hs Ht Hn. unfold _norm_url.
  rewrite (strip_extended u slashes tail Hne Hu Hs Ht), Hu.
  assert (E1 : String.eqb (u ++ slashes ++ rstrip_by is_space tail) "" = false).
  { destruct u; [contradiction | reflexivity]. }
  assert (E2 : String.eqb u "" = false).
  { destruct u; [contradiction | reflexivity]. }
  rewrite E1, E2.
  assert (Hcut : strip_query (u ++ slashes ++ rstrip_by is_space tail)
                 = u ++ slashes).
  { rewrite <- append_assoc. apply strip_query_cut.
    - rewrite all_chars_app, Hm. simpl.
      apply (all_chars_impl is_slash); [exact slash_not_mark | exact Hs].
    - destruct tail as [|m q]; [reflexivity|]. simpl in Ht.
      rewrite (rstrip_by_head is_space m q (mark_not_space m Ht)). exact Ht.
    - apply rstrip_by_all. exact Hn. }
  rewrite Hcut.
  replace (strip_query u) with u.
  - unfold rstrip_slash. apply rstrip_by_app_drop. exact Hs.
  - symmetry. rewrite <- (append_empty_r u) at 1.
    apply strip_query_cut; auto.
Qed.

Lemma norm_url_extended_witness :
  _norm_url ("https://x/y" ++ "//" ++ "?ref=abc#top ") = _norm_url "https://x/y".
Proof.
  apply (norm_url_extended "https://x/y" "//" "?ref=abc#top ");
    first [discriminate | reflexivity].
Defined.

End UrlFacts.

(* ================================================================== *)
(** ** Cells that are not strings in [make_series_id] *)

Module AbsentFieldFacts.
Import PyStr Resolver ResolverFacts.
Local Open Scope string_scope.

(** [make_series_id] renders the uid cell with [astype(str)] before it
    tests it, and the other cells with [str(u or "")]. So the key of an
    event is the trimmed rendering of its uid cell whenever that is not
    empty: a uid that is missing ([NaN]) gives the key "nan" and a uid that
    is [None] the key "None", whatever the url, the title and the location
    are; and under an empty uid a url that is missing ([NaN]) gives the key
    "nan". *)
Theorem absent_cells_are_rendered (uid url title location : pyval) :
  (strip (str uid) <> EmptyString ->
   make_series_id_row (mkEvent uid url title location) = strip (str uid))
  /\ make_series_id_row (mkEvent PNaN url title location) = "nan"
  /\ make_series_id_row (mkEvent PNone url title location) = "None"
  /\ make_series_id_row (mkEvent (PStr "") PNaN title location) = "nan"
  /\ make_series_id_row (mkEvent (PStr "") PNone (PStr "Yoga") PNone) = "yoga|".
Proof.
  split; [|repeat split].
  intro H. rewrite make_series_id_row_cases. cbv zeta. simpl.
  apply String.eqb_neq in H. rewrite H. reflexivity.
Qed.

End AbsentFieldFacts.

(* ================================================================== *)
(** ** What the strict fill does to a frame *)

Module FillFacts.
Import PyStr Strict StrictFacts PropagatorFacts PropagationFacts.

Definition is_some {A : Type} (o : option A) : bool :=
  match o with
  | Some _ => true
  | None => false
  end.

Lemma keeps_of_label (v : string) : in01 v = true -> FillRecurring.keeps v = true.
Proof.
  intro H. apply in01_cases in H. destruct H; subst v; reflexivity.
Qed.

(** A cell counts as labeled after the fill when it did before or when its
    series has exactly one value. *)
Lemma keeps_filled (group : list string) (c : string) :
  FillRecurring.keeps
    (fill_cell FillRecurring.clean FillRecurring.keeps group c)
  = FillRecurring.keeps c || is_some (one_value FillRecurring.clean group).
Proof.
  unfold fill_cell.
  destruct (one_value FillRecurring.clean group) as [v|] eqn:E; simpl.
  - destruct (FillRecurring.keeps c) eqn:Ek; [exact Ek|].
    apply keeps_of_label. exact (one_value_in01 FillRecurring.clean group v E).
  - rewrite orb_false_r. reflexivity.
Qed.

(** The rows that the fill labels: with a series key, not counted as
    labeled, in a series with exactly one value. *)
Definition newly_labeled (df : list (Cell.cell * string))
  : list (Cell.cell * string) :=
  filter (fun r =>
            Cell.notna (fst r)
            && negb (FillRecurring.keeps (snd r))
            && is_some (one_value FillRecurring.clean
                          (Frame.group_of Cell.eqb (fst r) df))) df.

(** The rows whose label the fill blanks: counted as labeled, without a
    series key. *)
Definition blanked (df : list (Cell.cell * string))
  : list (Cell.cell * string) :=
  filter (fun r => Cell.isna (fst r) && FillRecurring.keeps (snd r)) df.

Lemma filter_balance {R : Type} (a b c d : R -> bool) (l : list R) :
  (forall r, Nat.b2n (a r) + Nat.b2n (b r) = Nat.b2n (c r) + Nat.b2n (d r)) ->
  length (filter a l) + length (filter b l)
  = length (filter c l) + length (filter d l).
Proof.
  intro H. induction l as [|r l IH]; [reflexivity|].
  simpl. specialize (H r).
  destruct (a r), (b r), (c r), (d r); simpl in *; lia.
Qed.

Lemma labeled_count_filled (df : list (Cell.cell * string)) :
  FillRecurringMain.labeled_count (FillRecurring.fill_recurring_labels df)
  + length (blanked df)
  = FillRecurringMain.labeled_count df + length (newly_labeled df).
Proof.
  unfold FillRecurringMain.labeled_count, newly_labeled, blanked.
  rewrite fill_recurring_labels_rows, map_map. simpl.
  rewrite !filter_map_swap, !length_map.
  apply filter_balance. intros [k c]. unfold row_label, Cell.notna. simpl.
  destruct (Cell.isna k); simpl.
  - change (FillRecurring.keeps FillRecurring.missing) with false. simpl. lia.
  - rewrite keeps_filled.
    destruct (FillRecurring.keeps c), (is_some _); reflexivity.
Qed.

(** The number that [main] prints as "Auto-filled" is the number of rows
    with a series key that were not labeled and lie in a series with
    exactly one value, less the number of labeled rows without a series
    key, whose labels are blanked; it is not negative when every labeled
    row has a key. The labeled and the unlabeled rows add up to the
    frame. *)
Theorem auto_filled_count (df : list (Cell.cell * string)) :
  let c := FillRecurringMain.main_counts df in
  (FillRecurringMain.auto_filled c
   = Z.of_nat (length (newly_labeled df)) - Z.of_nat (length (blanked df)))%Z
  /\ (blanked df = [] ->
      (0 <= FillRecurringMain.auto_filled c)%Z
      /\ (FillRecurringMain.labeled_before c
          <= FillRecurringMain.labeled_after c)%Z)
  /\ (0 <= FillRecurringMain.unlabeled c)%Z
  /\ (FillRecurringMain.labeled_after c + FillRecurringMain.unlabeled c
      = Z.of_nat (length df))%Z.
Proof.
  unfold FillRecurringMain.main_counts. simpl.
  pose proof (labeled_count_filled df) as Hc.
  assert (Hlen : length (FillRecurring.fill_recurring_labels df) = length df).
  { rewrite fill_recurring_labels_rows. apply length_map. }
  assert (Hle : FillRecurringMain.labeled_count
                  (FillRecurring.fill_recurring_labels df) <= length df).
  { rewrite <- Hlen. unfold FillRecurringMain.labeled_count.
    rewrite <- (length_map snd (FillRecurring.fill_recurring_labels df)).
    apply filter_length_le. }
  rewrite Hlen.
  split; [lia|]. split; [|lia].
  intro Hb. rewrite Hb in Hc. simpl in Hc. lia.
Qed.

(** A run of [main] that prints a negative number: the one labeled row has
    no series key. *)
Example auto_filled_below_zero :
  FillRecurringMain.auto_filled
    (FillRecurringMain.main_counts [(Cell.NaN, "1"); (Cell.Str "a", "nan")])
  = (-1)%Z.
Proof. reflexivity. Qed.

(** The fill blanks the label of a row without a series key, and a cell
    that it changes in a row with a series key becomes the text 0 or 1, the
    one value of its series. *)
Theorem fill_writes_the_series_value (df : list (Cell.cell * string)) (i : nat)
  (k : Cell.cell) (c c' : string) :
  nth_error df i = Some (k, c) ->
  nth_error (FillRecurring.fill_recurring_labels df) i = Some (k, c') ->
  (Cell.isna k = true -> c' = FillRecurring.missing)
  /\ (Cell.notna k = true -> c' <> c ->
      in01 c' = true
      /\ FillRecurring.keeps c = false
      /\ one_value FillRecurring.clean (Frame.group_of Cell.eqb k df) = Some c').
Proof.
  intros Hi Ho. rewrite fill_recurring_labels_rows, nth_error_map, Hi in Ho.
  simpl in Ho. inversion Ho as [Hc]. clear Ho. split.
  - intro Hk. unfold row_label. simpl. rewrite Hk. reflexivity.
  - intros Hk Hne. rewrite (row_label_keyed _ _ _ _ _ Hk) in *.
    unfold fill_cell in *.
    destruct (one_value FillRecurring.clean (Frame.group_of Cell.eqb k df))
      as [v|] eqn:E; [|congruence].
    destruct (FillRecurring.keeps c) eqn:Ek; [congruence|].
    split; [|split; reflexivity].
    exact (one_value_in01 FillRecurring.clean _ v E).
Qed.

Lemma fill_writes_the_series_value_witness :
  let df := [(Cell.Str "E1", "1.0"); (Cell.Str "E1", "nan");
             (Cell.NaN, "1")] in
  ((Cell.isna (Cell.Str "E1") = true -> "1" = FillRecurring.missing)
   /\ (Cell.notna (Cell.Str "E1") = true -> "1" <> "nan" ->
       in01 "1" = true
       /\ FillRecurring.keeps "nan" = false
       /\ one_value FillRecurring.clean
            (Frame.group_of Cell.eqb (Cell.Str "E1") df) = Some "1"))
  /\ ((Cell.isna Cell.NaN = true -> "nan" = FillRecurring.missing)
      /\ (Cell.notna Cell.NaN = true -> "nan" <> "1" ->
          in01 "nan" = true
          /\ FillRecurring.keeps "1" = false
          /\ one_value FillRecurring.clean
               (Frame.group_of Cell.eqb Cell.NaN df) = Some "nan")).
Proof.
  split.
  - exact (fill_writes_the_series_value
             [(Cell.Str "E1", "1.0"); (Cell.Str "E1", "nan"); (Cell.NaN, "1")]
             1 (Cell.Str "E1") "nan" "1" eq_refl eq_refl).
  - exact (fill_writes_the_series_value
             [(Cell.Str "E1", "1.0"); (Cell.Str "E1", "nan"); (Cell.NaN, "1")]
             2 Cell.NaN "1" "nan" eq_refl eq_refl).
Defined.

Lemma group_of_absent (k : Cell.cell) (df : list (Cell.cell * string)) :
  ~ In k (map fst df) -> Frame.group_of Cell.eqb k df = [].
Proof.
  intro H. unfold Frame.group_of.
  induction df as [|[k' c] rest IH]; [reflexivity|].
  simpl in *. destruct (Cell.eqb k' k) eqn:E.
  - apply CellFacts.eqb_eq in E. exfalso. apply H. left. exact E.
  - apply IH. intro Hin. apply H. right. exact Hin.
Qed.

Section Locality.
Variable value : string -> string.
Variable keep : string -> bool.

Lemma filled_app (df1 df2 : list (Cell.cell * string)) :
  (forall k, Cell.notna k = true ->
             In k (map fst df1) -> ~ In k (map fst df2)) ->
  filled value keep (df1 ++ df2) = filled value keep df1 ++ filled value keep df2.
Proof.
  intro Hdis. unfold filled. rewrite map_app. f_equal.
  - apply map_ext_in. intros [k c] Hin. unfold row_label. simpl. f_equal.
    destruct (Cell.isna k) eqn:Ek; [reflexivity|].
    rewrite (FrameFacts.group_of_app Cell.eqb).
    rewrite (group_of_absent k df2), app_nil_r; [reflexivity|].
    apply Hdis; [unfold Cell.notna; rewrite Ek; reflexivity|].
    apply (in_map fst) in Hin. exact Hin.
  - apply map_ext_in. intros [k c] Hin. unfold row_label. simpl. f_equal.
    destruct (Cell.isna k) eqn:Ek; [reflexivity|].
    rewrite (FrameFacts.group_of_app Cell.eqb).
    rewrite (group_of_absent k df1); [reflexivity|].
    intro H1. apply (Hdis k); [unfold Cell.notna; rewrite Ek; reflexivity | exact H1|].
    apply (in_map fst) in Hin. exact Hin.
Qed.

End Locality.

(** The fill works series by series: on two frames that share no series
    key, stacked, it gives the two results, stacked. Rows without a key
    may be in both. *)
Theorem fill_of_disjoint_frames (df1 df2 : list (Cell.cell * string)) :
  (forall k, Cell.notna k = true ->
             In k (map fst df1) -> ~ In k (map fst df2)) ->
  FillRecurring.fill_recurring_labels (df1 ++ df2)
  = FillRecurring.fill_recurring_labels df1
    ++ FillRecurring.fill_recurring_labels df2
  /\ Trainer.propagate_labels (df1 ++ df2)
     = Trainer.propagate_labels df1 ++ Trainer.propagate_labels df2.
Proof.
  intro H. rewrite !fill_recurring_labels_rows, !trainer_propagate_labels_rows.
  split; apply filled_app; exact H.
Qed.

Lemma fill_of_disjoint_frames_witness :
  let df1 := [(Cell.Str "a", "1"); (Cell.Str "a", "nan"); (Cell.NaN, "0")] in
  let df2 := [(Cell.Str "b", "0"); (Cell.NaN, "1"); (Cell.Str "b", "1")] in
  FillRecurring.fill_recurring_labels (df1 ++ df2)
  = FillRecurring.fill_recurring_labels df1
    ++ FillRecurring.fill_recurring_labels df2
  /\ Trainer.propagate_labels (df1 ++ df2)
     = Trainer.propagate_labels df1 ++ Trainer.propagate_labels df2.
Proof.
  apply (fill_of_disjoint_frames
           [(Cell.Str "a", "1"); (Cell.Str "a", "nan"); (Cell.NaN, "0")]
           [(Cell.Str "b", "0"); (Cell.NaN, "1"); (Cell.Str "b", "1")]).
  intros k Hk [H|[H|[H|[]]]]; subst k; try discriminate Hk;
    intros [H|[H|[H|[]]]]; discriminate.
Defined.

End FillFacts.

(* ================================================================== *)
(** ** The rows that the trainer selects *)

Module SelectionFacts.
Import PyStr Strict StrictFacts PropagatorFacts.

Lemma labeled_mask_filled (group : list string) (c : string) :
  Trainer.labeled_mask c = true ->
  Trainer.labeled_mask (fill_cell exact in01 group c) = true.
Proof.
  intro H. unfold fill_cell.
  destruct (one_value exact group) as [v|] eqn:E; [|exact H].
  destruct (in01 c); [exact H|].
  pose proof (one_value_in01 exact group v E) as Hv.
  apply in01_cases in Hv. destruct Hv; subst v; reflexivity.
Qed.

Lemma filter_map_length_le {R : Type} (p : R -> bool) (f : R -> R)
  (l : list R) :
  (forall r, In r l -> p r = true -> p (f r) = true) ->
  length (filter p l) <= length (filter p (map f l)).
Proof.
  intro H. induction l as [|r l IH]; simpl; [lia|].
  assert (IH' : length (filter p l) <= length (filter p (map f l))).
  { apply IH. intros x Hx. apply H. right. exact Hx. }
  destruct (p r) eqn:E.
  - rewrite (H r (or_introl eq_refl) E). simpl. lia.
  - destruct (p (f r)); simpl; lia.
Qed.

(** Every row that the trainer takes for labeled has a series key. *)
Definition labels_are_keyed (df : list (Cell.cell * string)) : bool :=
  forallb (fun r => implb (Trainer.labeled_mask (snd r)) (Cell.notna (fst r)))
          df.

(** When the labeled rows all have a series key, propagation does not cost
    the trainer a labeled row: the rows it selects after
    [--propagate-series-labels] are at least as many as without it, so an
    input that passes its check without the flag passes it with the flag. *)
Theorem propagation_keeps_labeled_rows (df : list (Cell.cell * string)) :
  labels_are_keyed df = true ->
  length (GuardFacts.labeled_rows df)
  <= length (GuardFacts.labeled_rows (Trainer.propagate_labels df))
  /\ (forall df_l, Trainer.main_select false true df = Trainer.Labeled df_l ->
      exists df_l',
        Trainer.main_select true true df = Trainer.Labeled df_l'
        /\ length df_l <= length df_l').
Proof.
  intro Hkeyed.
  assert (Hle : length (GuardFacts.labeled_rows df)
                <= length (GuardFacts.labeled_rows (Trainer.propagate_labels df))).
  { unfold GuardFacts.labeled_rows. rewrite trainer_propagate_labels_rows.
    apply filter_map_length_le. intros [k c] Hin H. simpl in *.
    unfold labels_are_keyed in Hkeyed. rewrite forallb_forall in Hkeyed.
    specialize (Hkeyed (k, c) Hin). simpl in Hkeyed. rewrite H in Hkeyed.
    simpl in Hkeyed. rewrite (row_label_keyed _ _ _ _ _ Hkeyed).
    apply labeled_mask_filled. exact H. }
  split; [exact Hle|].
  intros df_l H. unfold Trainer.main_select in *. simpl in *.
  fold (GuardFacts.labeled_rows df) in H.
  fold (GuardFacts.labeled_rows (Trainer.propagate_labels df)).
  destruct (GuardFacts.labeled_rows df) as [|r0 l0] eqn:E0; [discriminate|].
  inversion H. subst df_l.
  destruct (GuardFacts.labeled_rows (Trainer.propagate_labels df))
    as [|r1 l1] eqn:E1; [simpl in Hle; lia|].
  exists (r1 :: l1). split; [reflexivity | exact Hle].
Qed.

Lemma propagation_keeps_labeled_rows_witness :
  let df := [(Cell.Str "a", "1"); (Cell.Str "a", "nan"); (Cell.NaN, "x")] in
  length (GuardFacts.labeled_rows df)
  <= length (GuardFacts.labeled_rows (Trainer.propagate_labels df))
  /\ (forall df_l, Trainer.main_select false true df = Trainer.Labeled df_l ->
      exists df_l',
        Trainer.main_select true true df = Trainer.Labeled df_l'
        /\ length df_l <= length df_l').
Proof.
  exact (propagation_keeps_labeled_rows
           [(Cell.Str "a", "1"); (Cell.Str "a", "nan"); (Cell.NaN, "x")]
           eq_refl).
Defined.

(** Without that, the flag can cost the trainer its only labeled row. *)
Example a_labeled_row_without_key_is_lost :
  Trainer.main_select false true [(Cell.NaN, "1")]
  = Trainer.Labeled [(Cell.NaN, "1")]
  /\ Trainer.main_select true true [(Cell.NaN, "1")]
     = Trainer.SystemExit "No labeled rows found.".
Proof. split; reflexivity. Qed.

End SelectionFacts.

(* ================================================================== *)
(** ** Dropping duplicates *)

Module DedupFacts.
Import Dedup.

Section ByKey.
Context {R K : Type}.
Variable keqb : K -> K -> bool.
Variable key : R -> K.
Hypothesis keqb_eq : forall a b, keqb a b = true <-> a = b.

Lemma seen_In (k : K) (seen : list K) :
  existsb (keqb k) seen = true <-> In k seen.
Proof.
  rewrite existsb_exists. split.
  - intros [x [Hx Hk]]. apply keqb_eq in Hk. subst x. exact Hx.
  - intro H. exists k. split; [exact H | apply keqb_eq; reflexivity].
Qed.

Lemma seen_not_In (k : K) (seen : list K) :
  existsb (keqb k) seen = false <-> ~ In k seen.
Proof.
  rewrite <- seen_In. destruct (existsb (keqb k) seen); split; intro H;
    try discriminate; try reflexivity; try (exfalso; apply H; reflexivity).
Qed.

(** A kept row is the first of the frame with its key, and the key had not
    been seen. *)
Lemma kept_is_first (seen : list K) (df : list R) (r : R) :
  In r (drop_duplicates_from keqb key seen df) ->
  ~ In (key r) seen
  /\ exists pre post,
       df = pre ++ r :: post
       /\ forall x, In x pre -> key x <> key r.
Proof.
  revert seen. induction df as [|a rest IH]; intros seen H; [destruct H|].
  simpl in H. destruct (existsb (keqb (key a)) seen) eqn:E.
  - destruct (IH seen H) as [Hs [pre [post [Hd Hp]]]].
    split; [exact Hs|]. exists (a :: pre), post. split.
    + rewrite Hd. reflexivity.
    + intros x [Hx|Hx]; [|apply Hp; exact Hx].
      subst x. intro Hk. apply Hs. rewrite <- Hk. apply seen_In. exact E.
  - apply seen_not_In in E. destruct H as [H|H].
    + subst a. split; [exact E|]. exists [], rest. split; [reflexivity|].
      intros x [].
    + destruct (IH (key a :: seen) H) as [Hs [pre [post [Hd Hp]]]].
      split; [intro Hin; apply Hs; right; exact Hin|].
      exists (a :: pre), post. split.
      * rewrite Hd. reflexivity.
      * intros x [Hx|Hx]; [|apply Hp; exact Hx].
        subst x. intro Hk. apply Hs. left. exact Hk.
Qed.

Lemma kept_keys_NoDup (seen : list K) (df : list R) :
  NoDup (map key (drop_duplicates_from keqb key seen df)).
Proof.
  revert seen. induction df as [|a rest IH]; intro seen; simpl; [constructor|].
  destruct (existsb (keqb (key a)) seen); [apply IH|].
  simpl. constructor; [|apply IH].
  intro Hin. apply in_map_iff in Hin. destruct Hin as [x [Hk Hx]].
  apply kept_is_first in Hx. destruct Hx as [Hs _].
  apply Hs. left. symmetry. exact Hk.
Qed.

Lemma every_key_kept (seen : list K) (df : list R) (r : R) :
  In r df -> ~ In (key r) seen ->
  exists r', In r' (drop_duplicates_from keqb key seen df) /\ key r' = key r.
Proof.
  revert seen. induction df as [|a rest IH]; intros seen Hin Hs; [destruct Hin|].
  simpl. destruct (existsb (keqb (key a)) seen) eqn:E.
  - destruct Hin as [Hin|Hin].
    + subst a. apply seen_In in E. contradiction.
    + apply IH; assumption.
  - destruct (keqb (key a) (key r)) eqn:Ek.
    + apply keqb_eq in Ek. exists a. split; [left; reflexivity | exact Ek].
    + destruct Hin as [Hin|Hin].
      * subst a. assert (keqb (key r) (key r) = true) by (apply keqb_eq; reflexivity).
        congruence.
      * destruct (IH (key a :: seen) Hin) as [r' [Hr' Hk]].
        { intros [H|H]; [|contradiction].
          apply keqb_eq in H. congruence. }
        exists r'. split; [right; exact Hr' | exact Hk].
Qed.

(** A frame whose keys are all different and unseen is kept whole, and
    what follows it is filtered against its keys. *)
Lemma distinct_prefix_kept (seen : list K) (a b : list R) :
  NoDup (map key a) -> (forall r, In r a -> ~ In (key r) seen) ->
  drop_duplicates_from keqb key seen (a ++ b)
  = a ++ drop_duplicates_from keqb key (rev (map key a) ++ seen) b.
Proof.
  revert seen. induction a as [|x a IH]; intros seen Hnd Hs; [reflexivity|].
  simpl. inversion Hnd as [|? ? Hx Hnd']; subst.
  assert (E : existsb (keqb (key x)) seen = false).
  { apply seen_not_In. apply Hs. left. reflexivity. }
  rewrite E. f_equal. rewrite IH.
  - rewrite <- app_assoc. reflexivity.
  - exact Hnd'.
  - intros r Hr [H|H].
    + apply Hx. rewrite H. apply in_map. exact Hr.
    + apply (Hs r); [right; exact Hr | exact H].
Qed.

End ByKey.

End DedupFacts.

(* ================================================================== *)
(** ** One row for each series *)

Module CollapseFacts.
Import Collapse.












(** Among the rows of a series with the longest description the first of
    the frame is kept. *)
Example collapse_series_ties :
  collapse_series
    [mkRow "b" "1" "long text"; mkRow "a" "0" "xy"; mkRow "a" "1" "pq";
     mkRow "b" "1" "t"; mkRow "a" "0" "z"]
  = [mkRow "a" "0" "xy"; mkRow "b" "1" "long text"].
Proof. reflexivity. Qed.

End CollapseFacts.

(* ================================================================== *)
(** ** The merge of new events with the existing ones *)

Module CombineFacts.
Import Cell CellFacts SmartLabel.

(** [smart_label_helper.main] merges by [uid] and the existing rows win:
    no uid is left twice; a row that is left is an existing row, or a new
    row whose uid no existing row has; every uid of either frame is left;
    and when the existing rows have different uids they are all left, in
    front and in order. *)
Theorem combine_keeps_existing (df_existing df_new : list row) :
  NoDup (map uid (combine df_existing df_new))
  /\ (forall r, In r (combine df_existing df_new) ->
      In r df_existing
      \/ (In r df_new /\ ~ In (uid r) (map uid df_existing)))
  /\ (forall r, In r df_existing \/ In r df_new ->
      exists r', In r' (combine df_existing df_new) /\ uid r' = uid r)
  /\ (NoDup (map uid df_existing) ->
      exists rest, combine df_existing df_new = df_existing ++ rest).
Proof.
  unfold combine, Dedup.drop_duplicates.
  split; [apply (DedupFacts.kept_keys_NoDup eqb uid eqb_eq)|].
  split; [|split].
  - intros r Hr.
    apply (DedupFacts.kept_is_first eqb uid eqb_eq) in Hr.
    destruct Hr as [_ [pre [post [Hd Hp]]]].
    apply app_eq_app in Hd. destruct Hd as [l [[He Hn]|[Hpre Hn]]].
    + destruct l as [|a l].
      * simpl in Hn. right. split; [rewrite <- Hn; left; reflexivity|].
        rewrite app_nil_r in He. subst pre.
        intro Hin. apply in_map_iff in Hin. destruct Hin as [x [Hk Hx]].
        apply (Hp x Hx). exact Hk.
      * inversion Hn; subst. left. apply in_or_app. right. left. reflexivity.
    + right. split; [rewrite Hn; apply in_or_app; right; left; reflexivity|].
      intro Hin. apply in_map_iff in Hin. destruct Hin as [x [Hk Hx]].
      apply (Hp x); [|exact Hk]. rewrite Hpre. apply in_or_app. left. exact Hx.
  - intros r Hr.
    apply (DedupFacts.every_key_kept eqb uid eqb_eq); [|intros []].
    apply in_or_app. exact Hr.
  - intro Hnd. eexists.
    apply (DedupFacts.distinct_prefix_kept eqb uid eqb_eq); [exact Hnd|].
    intros r _ [].
Qed.

Lemma combine_keeps_existing_witness :
  exists rest,
    combine [mkRow (Str "a") (Num 1); mkRow (Str "b") NaN]
            [mkRow (Str "b") (Num 0); mkRow (Str "c") (Num 0)]
    = [mkRow (Str "a") (Num 1); mkRow (Str "b") NaN] ++ rest.
Proof.
  apply (proj2 (proj2 (proj2
           (combine_keeps_existing
              [mkRow (Str "a") (Num 1); mkRow (Str "b") NaN]
              [mkRow (Str "b") (Num 0); mkRow (Str "c") (Num 0)])))).
  repeat constructor; simpl; intuition discriminate.
Defined.

End CombineFacts.

(* ================================================================== *)
(** ** The mode of a column *)

Module ModeFacts.
Import Cell CellFacts.

Definition is_num (c : cell) : bool :=
  match c with
  | Num _ => true
  | _ => false
  end.

Lemma fold_max_bound {A : Type} (f : A -> nat) (l : list A) (x : A) :
  In x l -> f x <= fold_right (fun y m => Nat.max (f y) m) 0 l.
Proof.
  induction l as [|a l IH]; simpl; [intros []|].
  intros [H|H]; [subst a; lia | specialize (IH H); lia].
Qed.

Lemma fold_max_attained {A : Type} (f : A -> nat) (l : list A) :
  l <> [] -> exists x, In x l /\ f x = fold_right (fun y m => Nat.max (f y) m) 0 l.
Proof.
  induction l as [|a l IH]; [congruence|]. intros _. simpl.
  destruct l as [|b l].
  - exists a. simpl. split; [auto | lia].
  - destruct (IH ltac:(discriminate)) as [x [Hx Hm]].
    destruct (Nat.le_ge_cases (f a)
                (fold_right (fun y m => Nat.max (f y) m) 0 (b :: l))) as [H|H].
    + exists x. split; [right; exact Hx | lia].
    + exists a. split; [left; reflexivity | lia].
Qed.

Lemma count_absent (x : cell) (l : list cell) : ~ In x l -> count x l = 0.
Proof.
  unfold count. induction l as [|a l IH]; simpl; [reflexivity|].
  intro H. destruct (eqb x a) eqn:E.
  - apply eqb_eq in E. exfalso. apply H. left. symmetry. exact E.
  - apply IH. intro Hin. apply H. right. exact Hin.
Qed.

Lemma count_le_max (x : cell) (l : list cell) : count x l <= max_count l.
Proof.
  destruct (existsb (eqb x) l) eqn:E.
  - apply existsb_exists in E. destruct E as [y [Hy Hxy]].
    apply eqb_eq in Hxy. subst y. unfold max_count.
    apply (fold_max_bound (fun y => count y l)). apply unique_In. exact Hy.
  - rewrite count_absent; [lia|].
    intro H. assert (existsb (eqb x) l = true); [|congruence].
    apply existsb_exists. exists x. split; [exact H | apply eqb_refl].
Qed.

Lemma mode_count (x : cell) (l : list cell) :
  In x (mode l) -> count x l = max_count l.
Proof.
  unfold mode. intro H. apply filter_In in H. destruct H as [_ H].
  apply Nat.eqb_eq. exact H.
Qed.

Lemma mode_nonempty (l : list cell) : l <> [] -> mode l <> [].
Proof.
  intro H.
  assert (Hu : unique l <> []) by (destruct l; [congruence | discriminate]).
  destruct (fold_max_attained (fun y => count y l) (unique l) Hu) as [x [Hx Hm]].
  intro E. assert (Hin : In x (mode l)).
  { unfold mode. apply filter_In. split; [exact Hx|].
    apply Nat.eqb_eq. exact Hm. }
  rewrite E in Hin. destruct Hin.
Qed.

Lemma mode_first_mode (l : list cell) (v : cell) :
  mode_first l = Some v -> In v (mode l).
Proof.
  unfold mode_first. destruct (mode l) as [|m ms]; [discriminate|].
  destruct (forallb (same_kind m) ms); intro H; inversion H; subst v.
  - apply minimum_In.
  - left. reflexivity.
Qed.

Lemma mode_first_some (l : list cell) :
  l <> [] -> exists v, mode_first l = Some v.
Proof.
  intro H. apply mode_nonempty in H. unfold mode_first.
  destruct (mode l) as [|m ms]; [congruence|].
  destruct (forallb (same_kind m) ms); eexists; reflexivity.
Qed.

Lemma mode_first_most_frequent (l : list cell) (v x : cell) :
  mode_first l = Some v -> count x l <= count v l.
Proof.
  intro H. apply mode_first_mode in H. rewrite (mode_count v l H).
  apply count_le_max.
Qed.

Lemma minimum_least (x : cell) (l : list cell) :
  is_num x = true -> forallb is_num l = true ->
  is_num (minimum x l) = true
  /\ forall y, In y (x :: l) -> leb (minimum x l) y = true.
Proof.
  revert x. induction l as [|a l IH]; intros x Hx Hl; simpl.
  - split; [exact Hx|]. intros y [Hy|[]]. subst y.
    destruct x; try discriminate. simpl. apply Z.leb_refl.
  - simpl in Hl. apply andb_true_iff in Hl. destruct Hl as [Ha Hl].
    destruct x as [|zx|]; try discriminate.
    destruct a as [|za|]; try discriminate.
    assert (Hn : is_num (if leb (Num zx) (Num za) then Num zx else Num za) = true)
      by (destruct (leb (Num zx) (Num za)); reflexivity).
    destruct (IH _ Hn Hl) as [Hm Hle]. split; [exact Hm|].
    assert (Hmin : leb (minimum (if leb (Num zx) (Num za) then Num zx else Num za) l)
                       (if leb (Num zx) (Num za) then Num zx else Num za) = true)
      by (apply Hle; left; reflexivity).
    intros y [Hy|[Hy|Hy]].
    + subst y.
      destruct (minimum (if leb (Num zx) (Num za) then Num zx else Num za) l);
        try discriminate.
      simpl in *. destruct (Z.leb zx za) eqn:E; simpl in Hmin;
        rewrite ?Z.leb_le, ?Z.leb_gt in *; lia.
    + subst y.
      destruct (minimum (if leb (Num zx) (Num za) then Num zx else Num za) l);
        try discriminate.
      simpl in *. destruct (Z.leb zx za) eqn:E; simpl in Hmin;
        rewrite ?Z.leb_le, ?Z.leb_gt in *; lia.
    + apply Hle. right. exact Hy.
Qed.

Lemma forallb_is_num_sub (l m : list cell) :
  forallb is_num l = true -> (forall x, In x m -> In x l) ->
  forallb is_num m = true.
Proof.
  intros H Hs. apply forallb_forall. intros x Hx.
  rewrite forallb_forall in H. apply H, Hs, Hx.
Qed.

(** Among numbers the first mode is the least of the modes. *)
Lemma mode_first_least (l : list cell) (v x : cell) :
  forallb is_num l = true -> mode_first l = Some v ->
  In x l -> count x l = count v l -> leb v x = true.
Proof.
  intros Hnum Hv Hx Hc.
  assert (Hxm : In x (mode l)).
  { unfold mode. apply filter_In. split; [apply unique_In; exact Hx|].
    apply Nat.eqb_eq. rewrite Hc. apply mode_count, mode_first_mode, Hv. }
  assert (Hmn : forallb is_num (mode l) = true).
  { apply (forallb_is_num_sub l); [exact Hnum | intros y; apply mode_In]. }
  unfold mode_first in Hv. destruct (mode l) as [|m ms]; [discriminate|].
  simpl in Hmn. apply andb_true_iff in Hmn. destruct Hmn as [Hm Hms].
  assert (Hk : forallb (same_kind m) ms = true).
  { apply forallb_forall. intros y Hy. rewrite forallb_forall in Hms.
    specialize (Hms y Hy). destruct m, y; try discriminate; reflexivity. }
  rewrite Hk in Hv. inversion Hv. subst v.
  apply (minimum_least m ms Hm Hms). exact Hxm.
Qed.

End ModeFacts.

(* ================================================================== *)
(** ** What the majority propagations fill with *)

Module MajorityFillFacts.
Import Cell CellFacts ModeFacts.

Lemma fill_value_some (group : list cell) :
  filter notna group <> [] ->
  exists v, MajorityFacts.fill_value group = Some v
            /\ mode_first (filter notna group) = Some v.
Proof.
  intro H. unfold MajorityFacts.fill_value.
  destruct (filter notna group) as [|a l] eqn:E; [congruence|].
  simpl length. cbv iota beta. simpl (S _ =? 0).
  pose proof (mode_nonempty (a :: l) ltac:(discriminate)) as Hm.
  destruct (mode (a :: l)) as [|m ms] eqn:Em; [congruence|].
  simpl (0 <? _).
  destruct (mode_first_some (a :: l) ltac:(discriminate)) as [v Hv].
  exists v. split; exact Hv.
Qed.

(** [propagate_series] fills a series that has some label: every null
    cell receives one and the same label of the series, one that no other
    label of the series outnumbers, and among numbers the least of those. *)
Theorem propagate_series_fills_with_mode (group : list cell) :
  filter notna group <> [] ->
  exists v,
    MergePropagate.propagate_series group = map (fun c => fillna c v) group
    /\ In v group
    /\ notna v = true
    /\ (forall x, count x (filter notna group) <= count v (filter notna group))
    /\ (forallb is_num (filter notna group) = true ->
        forall x, In x group ->
                  count x (filter notna group) = count v (filter notna group) ->
                  notna x = true -> leb v x = true).
Proof.
  intro H. destruct (fill_value_some group H) as [v [Hf Hm]].
  exists v. split; [|split; [|split; [|split]]].
  - rewrite MajorityFacts.propagate_series_pointwise.
    apply map_ext. intro c. unfold MajorityFacts.fill_cell. rewrite Hf.
    reflexivity.
  - apply mode_first_In in Hm. apply filter_In in Hm. apply Hm.
  - apply (MajorityFacts.fill_value_notna group v Hf).
  - intro x. apply mode_first_most_frequent. exact Hm.
  - intros Hnum x Hx Hc Hn.
    apply (mode_first_least (filter notna group) v x Hnum Hm); [|exact Hc].
    apply filter_In. split; assumption.
Qed.

Lemma propagate_series_fills_with_mode_witness :
  exists v,
    MergePropagate.propagate_series [Num 1; NaN; Num 0; Num 1; Num 0]
    = map (fun c => fillna c v) [Num 1; NaN; Num 0; Num 1; Num 0]
    /\ In v [Num 1; NaN; Num 0; Num 1; Num 0]
    /\ notna v = true
    /\ (forall x, count x (filter notna [Num 1; NaN; Num 0; Num 1; Num 0])
                  <= count v (filter notna [Num 1; NaN; Num 0; Num 1; Num 0]))
    /\ (forallb is_num (filter notna [Num 1; NaN; Num 0; Num 1; Num 0]) = true ->
        forall x, In x [Num 1; NaN; Num 0; Num 1; Num 0] ->
                  count x (filter notna [Num 1; NaN; Num 0; Num 1; Num 0])
                  = count v (filter notna [Num 1; NaN; Num 0; Num 1; Num 0]) ->
                  notna x = true -> leb v x = true).
Proof.
  apply (propagate_series_fills_with_mode [Num 1; NaN; Num 0; Num 1; Num 0]).
  discriminate.
Defined.

(** On a tie the smaller label wins: the series 1, 0, 1, 0 fills with 0. *)
Example tie_fills_with_the_least :
  MergePropagate.propagate_series [Num 1; NaN; Num 0; Num 1; Num 0]
  = [Num 1; Num 0; Num 0; Num 1; Num 0].
Proof. reflexivity. Qed.

(** The majority label of [propagate_series_labels] for a series that it
    changes is a label of the series that no other outnumbers, and among
    numbers the least of those. *)
Theorem auto_label_majority (df : list AutoLabel.row) (k : cell) :
  AutoLabelFacts.active df k = true ->
  In (AutoLabelFacts.majority df k) (AutoLabelFacts.labels_of df k)
  /\ (forall x, count x (AutoLabelFacts.labels_of df k)
                <= count (AutoLabelFacts.majority df k)
                         (AutoLabelFacts.labels_of df k))
  /\ (forallb is_num (AutoLabelFacts.labels_of df k) = true ->
      forall x, In x (AutoLabelFacts.labels_of df k) ->
                count x (AutoLabelFacts.labels_of df k)
                = count (AutoLabelFacts.majority df k)
                        (AutoLabelFacts.labels_of df k) ->
                leb (AutoLabelFacts.majority df k) x = true).
Proof.
  intro Ha. unfold AutoLabelFacts.active in Ha.
  apply andb_true_iff in Ha. destruct Ha as [_ Hl]. apply Nat.ltb_lt in Hl.
  assert (Hne : AutoLabelFacts.labels_of df k <> []).
  { intro E. rewrite E in Hl. simpl in Hl. lia. }
  destruct (mode_first_some _ Hne) as [v Hv].
  unfold AutoLabelFacts.majority. rewrite Hv.
  split; [apply mode_first_In; exact Hv|].
  split; [intro x; apply mode_first_most_frequent; exact Hv|].
  intros Hnum x Hx Hc. apply (mode_first_least _ v x Hnum Hv Hx Hc).
Qed.

Lemma auto_label_majority_witness :
  let df := [AutoLabel.mkRow (Str "a") (Num 7) (Num 1) NaN;
             AutoLabel.mkRow (Str "b") (Num 7) (Num 1) NaN;
             AutoLabel.mkRow (Str "c") (Num 7) (Num 0) NaN] in
  In (AutoLabelFacts.majority df (Num 7)) (AutoLabelFacts.labels_of df (Num 7))
  /\ (forall x, count x (AutoLabelFacts.labels_of df (Num 7))
                <= count (AutoLabelFacts.majority df (Num 7))
                         (AutoLabelFacts.labels_of df (Num 7)))
  /\ (forallb is_num (AutoLabelFacts.labels_of df (Num 7)) = true ->
      forall x, In x (AutoLabelFacts.labels_of df (Num 7)) ->
                count x (AutoLabelFacts.labels_of df (Num 7))
                = count (AutoLabelFacts.majority df (Num 7))
                        (AutoLabelFacts.labels_of df (Num 7)) ->
                leb (AutoLabelFacts.majority df (Num 7)) x = true).
Proof.
  exact (auto_label_majority
           [AutoLabel.mkRow (Str "a") (Num 7) (Num 1) NaN;
            AutoLabel.mkRow (Str "b") (Num 7) (Num 1) NaN;
            AutoLabel.mkRow (Str "c") (Num 7) (Num 0) NaN] (Num 7) eq_refl).
Defined.

End MajorityFillFacts.

(* ================================================================== *)
(** ** [merge_and_propagate_labels.main] on a frame *)

Module MergeMainFacts.
Import Cell CellFacts MergePropagate.

Definition merged_label (r : row) : cell := merge (label r) (predicted_label r).

Definition valid_row (r : row) : bool := valid_series (series_id r).

Lemma merged_group_In (df : list row) (k c : cell) :
  In c (Frame.group_of eqb k (MajorityFacts.merged df))
  <-> exists r, In r df /\ series_id r = k /\ merged_label r = c.
Proof.
  rewrite (FrameFacts.group_of_In eqb eqb_eq). unfold MajorityFacts.merged.
  rewrite in_map_iff. split.
  - intros [r [H Hin]]. inversion H. exists r. auto.
  - intros [r [Hin [Hk Hc]]]. exists r. subst. auto.
Qed.

Lemma main_nth (df : list row) (i : nat) (r : row) :
  nth_error df i = Some r ->
  nth_error (main df) i
  = Some (mkRow (series_id r)
                (MajorityFacts.propagated (MajorityFacts.merged df)
                   (series_id r) (merged_label r))
                (predicted_label r)).
Proof.
  intro H. rewrite MajorityFacts.main_rows, nth_error_map, H. reflexivity.
Qed.

Lemma merged_filter (df : list row) :
  MajorityFacts.merged (filter valid_row df)
  = filter (fun r => valid_series (fst r)) (MajorityFacts.merged df).
Proof.
  unfold MajorityFacts.merged. rewrite filter_map_swap. reflexivity.
Qed.

(** The guard of step 2: a row whose [series_id] is null or empty is never
    filled, and such rows never bear on the others: the rows with a valid
    key come out as if the frame held them alone. *)
Theorem invalid_series_stay_out (df : list row) :
  (forall i r, nth_error df i = Some r -> valid_row r = false ->
               exists r', nth_error (main df) i = Some r'
                          /\ label r' = merged_label r)
  /\ filter valid_row (main df) = main (filter valid_row df).
Proof.
  split.
  - intros i r Hi Hv. rewrite (main_nth df i r Hi). eexists.
    split; [reflexivity|]. simpl. unfold MajorityFacts.propagated.
    unfold valid_row in Hv. rewrite Hv. reflexivity.
  - rewrite !MajorityFacts.main_rows. rewrite filter_map_swap.
    unfold valid_row at 1. simpl.
    fold valid_row. apply map_ext_in. intros r Hr.
    apply filter_In in Hr. destruct Hr as [_ Hv]. f_equal.
    unfold MajorityFacts.propagated. unfold valid_row in Hv. rewrite Hv.
    rewrite merged_filter, MajorityFacts.group_of_valid; [reflexivity | exact Hv].
Qed.

(** The events that [main] reports as still unlabeled: a row ends without
    a label exactly when neither its label nor its predicted label was
    given and either its series key is null or empty or no row of its
    series has a label or a predicted label. *)
Theorem still_unlabeled (df : list row) (i : nat) (r : row) :
  nth_error df i = Some r ->
  exists r',
    nth_error (main df) i = Some r'
    /\ (isna (label r') = true <->
        isna (merged_label r) = true
        /\ (valid_row r = false
            \/ forall r2, In r2 df -> series_id r2 = series_id r ->
                          isna (merged_label r2) = true)).
Proof.
  intro Hi. rewrite (main_nth df i r Hi). eexists. split; [reflexivity|].
  simpl. unfold MajorityFacts.propagated, valid_row.
  destruct (valid_series (series_id r)) eqn:Ev; [|tauto].
  set (G := Frame.group_of eqb (series_id r) (MajorityFacts.merged df)).
  destruct (filter notna G) as [|a l] eqn:E.
  - assert (Hall : forall r2, In r2 df -> series_id r2 = series_id r ->
                              isna (merged_label r2) = true).
    { intros r2 H2 Hk.
      assert (Hin : In (merged_label r2) G).
      { apply merged_group_In. exists r2. auto. }
      destruct (notna (merged_label r2)) eqn:En.
      - assert (In (merged_label r2) (filter notna G))
          by (apply filter_In; auto).
        rewrite E in H. destruct H.
      - unfold notna in En. apply negb_false_iff in En. exact En. }
    unfold MajorityFacts.fill_cell, MajorityFacts.fill_value. rewrite E. simpl.
    intuition.
  - destruct (MajorityFillFacts.fill_value_some G) as [v [Hf _]];
      [rewrite E; discriminate|].
    pose proof (MajorityFacts.fill_value_notna G v Hf) as Hv.
    unfold MajorityFacts.fill_cell. rewrite Hf. split.
    + intro H. exfalso. destruct (merged_label r); simpl in H;
        [|discriminate|discriminate].
      unfold notna in Hv. rewrite H in Hv. discriminate.
    + intros [_ [H|H]]; [discriminate|]. exfalso.
      assert (Ha : In a (filter notna G)) by (rewrite E; left; reflexivity).
      apply filter_In in Ha. destruct Ha as [Ha Hn].
      apply merged_group_In in Ha. destruct Ha as [r2 [H2 [Hk Hc]]].
      specialize (H r2 H2 Hk). rewrite Hc in H.
      unfold notna in Hn. rewrite H in Hn. discriminate.
Qed.

Lemma still_unlabeled_witness :
  let df := [mkRow (Str "a") NaN NaN; mkRow (Str "a") NaN (Num 1);
             mkRow (Str "") NaN NaN] in
  exists r',
    nth_error (main df) 2 = Some r'
    /\ (isna (label r') = true <->
        isna (merged_label (mkRow (Str "") NaN NaN)) = true
        /\ (valid_row (mkRow (Str "") NaN NaN) = false
            \/ forall r2, In r2 df ->
                          series_id r2 = series_id (mkRow (Str "") NaN NaN) ->
                          isna (merged_label r2) = true)).
Proof.
  exact (still_unlabeled
           [mkRow (Str "a") NaN NaN; mkRow (Str "a") NaN (Num 1);
            mkRow (Str "") NaN NaN] 2 (mkRow (Str "") NaN NaN) eq_refl).
Defined.

End MergeMainFacts.

(* ================================================================== *)
(** ** [propagate_series_labels] on a frame *)

Module AutoLabelMainFacts.
Import Cell CellFacts AutoLabel AutoLabelFacts.

Lemma inactive_series_has_no_label (df : list row) (r : row) :
  In r df -> notna (series_id r) = true ->
  active df (series_id r) = false -> label r = NaN.
Proof.
  intros Hin Hk Ha. unfold active in Ha. rewrite Hk in Ha. simpl in Ha.
  apply Nat.ltb_ge in Ha.
  destruct (notna (label r)) eqn:En.
  - assert (H : In (label r) (labels_of df (series_id r))).
    { unfold labels_of. apply filter_In. split; [|exact En].
      apply in_map. apply filter_In. split; [exact Hin | apply eqb_refl]. }
    destruct (labels_of df (series_id r)); [destruct H | simpl in Ha; lia].
  - destruct (label r); [reflexivity | discriminate | discriminate].
Qed.

Lemma with_series_id_row (df : frame) (i : nat) (r' : row) :
  nth_error (with_series_id df) i = Some r' ->
  exists r,
    nth_error (rows df) i = Some r
    /\ uid r' = uid r /\ label r' = label r
    /\ label_source r' = label_source r.
Proof.
  unfold with_series_id, rebuild_series_id.
  destruct (negb (has_series_id df) || forallb isna (map series_id (rows df))).
  - rewrite nth_error_map.
    destruct (nth_error (rows df) i) as [r|]; [|discriminate].
    simpl. intro H. inversion H. exists r. auto.
  - intro H. exists r'. auto.
Qed.

(** After [propagate_series_labels] any two rows with the same series key,
    not null, carry the same label; and a row that is left without a series
    key has the uid, the label and the label source that it had. *)
Theorem one_label_for_each_series (df : frame) (i j : nat) (ri rj : row) :
  nth_error (rows (propagate_series_labels df)) i = Some ri ->
  nth_error (rows (propagate_series_labels df)) j = Some rj ->
  (series_id ri = series_id rj -> notna (series_id ri) = true ->
   label ri = label rj)
  /\ (isna (series_id ri) = true ->
      exists r,
        nth_error (rows df) i = Some r
        /\ uid ri = uid r /\ label ri = label r
        /\ label_source ri = label_source r).
Proof.
  unfold propagate_series_labels. simpl.
  set (keyed := with_series_id df).
  rewrite propagate_rows_pointwise. fold (propagated_row keyed).
  change (map (fun r => propagated_row keyed r) keyed)
    with (map (propagated_row keyed) keyed).
  rewrite !nth_error_map. intros Hi Hj.
  destruct (nth_error keyed i) as [r1|] eqn:E1; [|discriminate].
  destruct (nth_error keyed j) as [r2|] eqn:E2; [|discriminate].
  simpl in Hi, Hj. inversion Hi as [Hri]. inversion Hj as [Hrj]. clear Hi Hj.
  rewrite !propagated_row_key.
  assert (Hlab : forall r, In r keyed -> notna (series_id r) = true ->
                 label (propagated_row keyed r)
                 = if active keyed (series_id r) then majority keyed (series_id r)
                   else NaN).
  { intros r Hin Hk. unfold propagated_row.
    destruct (active keyed (series_id r)) eqn:Ea; [reflexivity|].
    apply (inactive_series_has_no_label keyed r Hin Hk Ea). }
  split.
  - intros Hk Hn.
    rewrite (Hlab r1 (nth_error_In _ _ E1) Hn).
    rewrite Hk in Hn. rewrite (Hlab r2 (nth_error_In _ _ E2) Hn), Hk.
    reflexivity.
  - intro Hn.
    assert (Hsame : propagated_row keyed r1 = r1).
    { unfold propagated_row, active, notna. rewrite Hn. reflexivity. }
    rewrite Hsame. apply (with_series_id_row df i r1 E1).
Qed.

Lemma one_label_for_each_series_witness :
  let df := mkFrame false
              [mkRow (Str "x?series_id=7") NaN (Num 1) NaN;
               mkRow (Str "single") NaN (Num 0) NaN;
               mkRow (Str "y?series_id=7") NaN NaN NaN] in
  let r0 := mkRow (Str "x?series_id=7") (Num 7) (Num 1)
                  (Str "series_propagation") in
  let r1 := mkRow (Str "single") NaN (Num 0) NaN in
  let r2 := mkRow (Str "y?series_id=7") (Num 7) (Num 1)
                  (Str "series_propagation") in
  ((series_id r0 = series_id r2 -> notna (series_id r0) = true ->
    label r0 = label r2)
   /\ (isna (series_id r0) = true ->
       exists r,
         nth_error (rows df) 0 = Some r
         /\ uid r0 = uid r /\ label r0 = label r
         /\ label_source r0 = label_source r))
  /\ ((series_id r1 = series_id r1 -> notna (series_id r1) = true ->
       label r1 = label r1)
      /\ (isna (series_id r1) = true ->
          exists r,
            nth_error (rows df) 1 = Some r
            /\ uid r1 = uid r /\ label r1 = label r
            /\ label_source r1 = label_source r)).
Proof.
  split.
  - exact (one_label_for_each_series
             (mkFrame false
                [mkRow (Str "x?series_id=7") NaN (Num 1) NaN;
                 mkRow (Str "single") NaN (Num 0) NaN;
                 mkRow (Str "y?series_id=7") NaN NaN NaN]) 0 2
             (mkRow (Str "x?series_id=7") (Num 7) (Num 1)
                    (Str "series_propagation"))
             (mkRow (Str "y?series_id=7") (Num 7) (Num 1)
                    (Str "series_propagation"))
             eq_refl eq_refl).
  - exact (one_label_for_each_series
             (mkFrame false
                [mkRow (Str "x?series_id=7") NaN (Num 1) NaN;
                 mkRow (Str "single") NaN (Num 0) NaN;
                 mkRow (Str "y?series_id=7") NaN NaN NaN]) 1 1
             (mkRow (Str "single") NaN (Num 0) NaN)
             (mkRow (Str "single") NaN (Num 0) NaN)
             eq_refl eq_refl).
Defined.

End AutoLabelMainFacts.

(* ================================================================== *)
(** ** The review flag *)

Module ReviewFacts.
Import Confidence SmartLabel.
Local Open Scope Q_scope.

Lemma needs_review_lt (t m : Q) :
  needs_review t m = true <-> smart_label m < t.
Proof.
  unfold needs_review. rewrite negb_true_iff. split.
  - intro H. apply Qnot_le_lt. intro Hle.
    apply Qle_bool_iff in Hle. congruence.
  - intro H. destruct (Qle_bool t (smart_label m)) eqn:E; [|reflexivity].
    apply Qle_bool_iff in E. exfalso. exact (Qlt_not_le _ _ H E).
Qed.

Lemma needs_review_not (t m : Q) :
  needs_review t m = false <-> t <= smart_label m.
Proof.
  unfold needs_review. rewrite negb_false_iff. apply Qle_bool_iff.
Qed.

(** The review flag of [smart_label] grows with the absolute margin: once
    a prediction is flagged, every prediction at least as far from the
    boundary is flagged too, so that it is the predictions far from the
    boundary that go to review. The sign of the margin does not matter. No
    prediction is flagged under a threshold that is not positive, and every
    prediction is flagged under a threshold above one. Under
    [--auto-accept-high-confidence] the predicted label is taken for the
    predictions that are not flagged and no label for the others. *)
Theorem review_grows_with_the_margin (threshold m m' : Q)
  (predicted : Cell.cell) :
  (Qabs m <= Qabs m' -> needs_review threshold m = true ->
   needs_review threshold m' = true)
  /\ needs_review threshold (- m) = needs_review threshold m
  /\ (threshold <= 0 -> needs_review threshold m = false)
  /\ (1 < threshold -> needs_review threshold m = true)
  /\ auto_accept predicted (needs_review threshold m)
     = (if needs_review threshold m then Cell.NaN else predicted).
Proof.
  pose proof (ConfidenceFacts.inverse_margin_range m) as [Hpos Hle].
  change (svm_tag_events m) with (smart_label m) in Hpos, Hle.
  split; [|split; [|split; [|split]]].
  - intros Ha H. apply needs_review_lt in H. apply needs_review_lt.
    pose proof (ConfidenceFacts.inverse_margin_antitone m m' Ha) as Hm.
    change (svm_tag_events m') with (smart_label m') in Hm.
    change (svm_tag_events m) with (smart_label m) in Hm.
    lra.
  - unfold needs_review, smart_label. rewrite Qabs_opp. reflexivity.
  - intro Ht. apply needs_review_not. lra.
  - intro Ht. apply needs_review_lt. lra.
  - unfold auto_accept. destruct (needs_review threshold m); reflexivity.
Qed.

Lemma review_grows_with_the_margin_witness :
  (Qabs (1 # 1) <= Qabs (-2 # 1) -> needs_review (55 # 100) (1 # 1) = true ->
   needs_review (55 # 100) (-2 # 1) = true)
  /\ needs_review (55 # 100) (- (1 # 1)) = needs_review (55 # 100) (1 # 1)
  /\ (55 # 100 <= 0 -> needs_review (55 # 100) (1 # 1) = false)
  /\ (1 < 55 # 100 -> needs_review (55 # 100) (1 # 1) = true)
  /\ auto_accept (Cell.Num 1) (needs_review (55 # 100) (1 # 1))
     = (if needs_review (55 # 100) (1 # 1) then Cell.NaN else Cell.Num 1).
Proof.
  exact (review_grows_with_the_margin (55 # 100) (1 # 1) (-2 # 1) (Cell.Num 1)).
Defined.

(** With the default threshold 0.55 a margin of 2 is flagged and a margin
    of one half is not. *)
Example default_threshold_flags :
  needs_review (55 # 100) (2 # 1) = true
  /\ needs_review (55 # 100) (-1 # 2) = false.
Proof. split; reflexivity. Qed.

End ReviewFacts.

(* ================================================================== *)
(** ** The series number in a uid *)

Module SeriesNumberFacts.
Import PyStr Cell SeriesNumber.
Local Open Scope string_scope.

Definition pattern : string := "series_id=".

Definition not_equals_sign (c : ascii) : bool := negb (Ascii.eqb c "=").

(** The string does not begin with a digit. *)
Definition no_digit_ahead (s : string) : bool :=
  match s with
  | EmptyString => true
  | String c _ => negb (is_digit c)
  end.

Lemma after_prefix_append (p r : string) : after_prefix p (p ++ r) = Some r.
Proof.
  induction p as [|a p IH]; simpl; [reflexivity|].
  rewrite Ascii.eqb_refl. exact IH.
Qed.

Lemma after_prefix_split (p s r : string) :
  after_prefix p s = Some r -> s = p ++ r.
Proof.
  revert s. induction p as [|a p IH]; intros s H; simpl in *.
  - inversion H. reflexivity.
  - destruct s as [|b s]; [discriminate|].
    destruct (Ascii.eqb a b) eqn:E; [|discriminate].
    apply Ascii.eqb_eq in E. subst b. rewrite (IH s H). reflexivity.
Qed.

Lemma take_digits_split (s : string) :
  exists rest,
    s = take_digits s ++ rest
    /\ all_chars is_digit (take_digits s) = true
    /\ no_digit_ahead rest = true.
Proof.
  induction s as [|c r [rest [Hs [Hd Hn]]]]; simpl.
  - exists EmptyString. auto.
  - destruct (is_digit c) eqn:E.
    + exists rest. simpl. rewrite E, <- Hs. auto.
    + exists (String c r). simpl. rewrite E. auto.
Qed.

Lemma take_digits_exact (ds post : string) :
  all_chars is_digit ds = true -> no_digit_ahead post = true ->
  take_digits (ds ++ post) = ds.
Proof.
  intros Hd Hp. induction ds as [|c r IH]; simpl in *.
  - destruct post as [|c p]; [reflexivity|]. simpl in *.
    apply negb_true_iff in Hp. rewrite Hp. reflexivity.
  - apply andb_true_iff in Hd. destruct Hd as [Hc Hr].
    rewrite Hc, (IH Hr). reflexivity.
Qed.

Lemma int_from_nonneg (acc : Z) (ds : string) :
  (0 <= acc)%Z -> (0 <= int_from acc ds)%Z.
Proof.
  revert acc. induction ds as [|c r IH]; intros acc H; [exact H|].
  change (0 <= int_from (10 * acc + Z.of_nat (nat_of_ascii c - 48)) r)%Z.
  apply IH. lia.
Qed.

(** A number that [extract_series_id] gives is written in the uid, after
    the text [series_id=], as the whole run of digits found there; and it
    gives none for a uid that is null or a number. *)
Theorem extract_series_id_reads_the_uid (uid : cell) (n : Z) :
  extract_series_id uid = Num n ->
  (0 <= n)%Z
  /\ exists pre digits post,
       uid = Str (pre ++ pattern ++ digits ++ post)
       /\ digits <> EmptyString
       /\ all_chars is_digit digits = true
       /\ no_digit_ahead post = true
       /\ n = int digits.
Proof.
  destruct uid as [| |s]; simpl; try discriminate.
  destruct (search s) as [m|] eqn:E; [|discriminate].
  intro H. inversion H. subst m. clear H.
  induction s as [|c r IH]; [discriminate|].
  unfold search in E. fold search in E.
  destruct (after_prefix "series_id=" (String c r)) as [rest|] eqn:Ep.
  - destruct (take_digits rest) as [|d ds] eqn:Ed.
    + destruct (IH E) as [Hn [pre [digits [post [Hs H]]]]].
      split; [exact Hn|]. exists (String c pre), digits, post.
      inversion Hs. split; [reflexivity | exact H].
    + inversion E. subst n. split; [apply int_from_nonneg; lia|].
      destruct (take_digits_split rest) as [post [Hr [Hd Hp]]].
      exists EmptyString, (String d ds), post.
      apply after_prefix_split in Ep. rewrite Ed in Hr, Hd.
      split; [|split; [discriminate | split; [exact Hd | split; [exact Hp | reflexivity]]]].
      simpl. rewrite Ep, Hr. reflexivity.
  - destruct (IH E) as [Hn [pre [digits [post [Hs H]]]]].
    split; [exact Hn|]. exists (String c pre), digits, post.
    inversion Hs. split; [reflexivity | exact H].
Qed.

Lemma extract_series_id_reads_the_uid_witness :
  (0 <= 42)%Z
  /\ exists pre digits post,
       Str "event?series_id=42&x=1" = Str (pre ++ pattern ++ digits ++ post)
       /\ digits <> EmptyString
       /\ all_chars is_digit digits = true
       /\ no_digit_ahead post = true
       /\ 42%Z = int digits.
Proof.
  exact (extract_series_id_reads_the_uid (Str "event?series_id=42&x=1") 42 eq_refl).
Defined.

Lemma after_prefix_equals (s r : string) :
  after_prefix "series_id=" s = Some r -> String.get 9 s = Some "="%char.
Proof.
  intro H. apply after_prefix_split in H. subst s. reflexivity.
Qed.

Lemma get_not_equals (pre : string) (n : nat) :
  all_chars not_equals_sign pre = true -> String.get n pre <> Some "="%char.
Proof.
  revert n. induction pre as [|c r IH]; intros n H; simpl; [destruct n; discriminate|].
  simpl in H. apply andb_true_iff in H. destruct H as [Hc Hr].
  destruct n as [|n]; [|apply IH; exact Hr].
  intro E. inversion E. subst c. discriminate.
Qed.

Lemma pattern_has_one_equals (o : nat) (x : string) :
  o <= 8 -> String.get o (pattern ++ x) <> Some "="%char.
Proof.
  intro H. unfold pattern.
  do 9 (destruct o as [|o]; [simpl; discriminate|]). lia.
Qed.

(** No match begins inside a text without an equals sign that stands
    before the pattern. *)
Lemma no_match_inside (c : ascii) (pre x : string) :
  all_chars not_equals_sign (String c pre) = true ->
  after_prefix "series_id=" (String c pre ++ pattern ++ x) = None.
Proof.
  intro H.
  destruct (after_prefix "series_id=" (String c pre ++ pattern ++ x))
    as [r|] eqn:E; [|reflexivity].
  exfalso. apply after_prefix_equals in E.
  destruct (Nat.lt_ge_cases 9 (String.length (String c pre))) as [Hl|Hl].
  - rewrite <- (append_correct1 _ _ _ Hl) in E.
    exact (get_not_equals _ _ H E).
  - pose proof (append_correct2 (String c pre) (pattern ++ x)
                  (9 - String.length (String c pre))) as H2.
    replace (9 - String.length (String c pre) + String.length (String c pre))
      with 9 in H2 by lia.
    rewrite <- H2 in E.
    apply (pattern_has_one_equals (9 - String.length (String c pre)) x);
      [|exact E].
    change (String.length (String c pre)) with (S (String.length pre)). lia.
Qed.

Lemma search_at_pattern (digits post : string) :
  digits <> EmptyString -> all_chars is_digit digits = true ->
  no_digit_ahead post = true ->
  search (pattern ++ digits ++ post) = Some (int digits).
Proof.
  intros Hne Hd Hp.
  change (pattern ++ digits ++ post)
    with (String "s" ("eries_id=" ++ digits ++ post)).
  unfold search; fold search.
  change (String "s" ("eries_id=" ++ digits ++ post))
    with ("series_id=" ++ (digits ++ post)).
  rewrite after_prefix_append, (take_digits_exact digits post Hd Hp).
  destruct digits; [contradiction | reflexivity].
Qed.

(** The series number written in a uid is read back: after a text without
    an equals sign, [series_id=] and a run of digits that ends the uid or
    stops at another character give the number that the digits spell. *)
Theorem extract_series_id_of_uid (pre digits post : string) :
  all_chars not_equals_sign pre = true ->
  digits <> EmptyString -> all_chars is_digit digits = true ->
  no_digit_ahead post = true ->
  extract_series_id (Str (pre ++ pattern ++ digits ++ post))
  = Num (int digits).
Proof.
  intros Hpre Hne Hd Hp. unfold extract_series_id.
  assert (Hs : search (pre ++ pattern ++ digits ++ post) = Some (int digits)).
  { induction pre as [|c r IH].
    - apply search_at_pattern; assumption.
    - change ((String c r ++ pattern ++ digits ++ post))
        with (String c (r ++ pattern ++ digits ++ post)).
      unfold search; fold search.
      change (String c (r ++ pattern ++ digits ++ post))
        with (String c r ++ pattern ++ digits ++ post).
      rewrite (no_match_inside c r (digits ++ post) Hpre).
      apply IH. simpl in Hpre. apply andb_true_iff in Hpre. apply Hpre. }
  rewrite Hs. reflexivity.
Qed.

Lemma extract_series_id_of_uid_witness :
  extract_series_id (Str ("https://x/event?" ++ pattern ++ "0042" ++ "&y"))
  = Num (int "0042").
Proof.
  apply (extract_series_id_of_uid "https://x/event?" "0042" "&y");
    first [reflexivity | discriminate].
Defined.

End SeriesNumberFacts.

(* ================================================================== *)
(** ** The venue columns *)

Module VenueFacts.
Import PyStr Venue.
Local Open Scope string_scope.

(** [\b] before a word character, after the text [pre]: [pre] is empty, or
    ends with a character that is not a word character. *)
Definition boundary_behind (pre : string) : bool :=
  match last_char pre with
  | None => true
  | Some c => negb (is_word c)
  end.

(** [w] stands in [s] as a whole word. *)
Definition whole_word_in (w s : string) : Prop :=
  exists pre post,
    s = pre ++ w ++ post
    /\ boundary_behind pre = true /\ boundary_ahead post = true.

(** [w] stands somewhere in [s]. *)
Definition part_of (w s : string) : Prop :=
  exists pre post, s = pre ++ w ++ post.

Lemma match_at_append (w r : string) : match_at w (w ++ r) = Some r.
Proof.
  induction w as [|a w IH]; simpl; [reflexivity|].
  rewrite Ascii.eqb_refl. exact IH.
Qed.

Lemma match_at_split (w s r : string) : match_at w s = Some r -> s = w ++ r.
Proof.
  revert s. induction w as [|a w IH]; intros s H; simpl in *.
  - inversion H. reflexivity.
  - destruct s as [|b s]; [discriminate|].
    destruct (Ascii.eqb a b) eqn:E; [|discriminate].
    apply Ascii.eqb_eq in E. subst b. rewrite (IH s H). reflexivity.
Qed.

(** The boundary before a place, given whether the character before the
    whole text is a word character. *)
Definition boundary_behind_from (prev_is_word : bool) (pre : string) : bool :=
  match last_char pre with
  | None => negb prev_is_word
  | Some c => negb (is_word c)
  end.

Lemma boundary_behind_cons (p : bool) (c : ascii) (pre : string) :
  boundary_behind_from p (String c pre) = boundary_behind_from (is_word c) pre.
Proof.
  unfold boundary_behind_from. destruct pre as [|a pre]; [reflexivity|].
  change (last_char (String c (String a pre))) with (last_char (String a pre)).
  destruct (last_char (String a pre)) eqn:E; [reflexivity|].
  exfalso. clear -E. revert a E.
  induction pre as [|b pre IH]; intros a E; [discriminate|].
  apply (IH b). exact E.
Qed.

Lemma contains_word_from_found (w : string) (p : bool) (s : string) :
  contains_word_from w p s = true ->
  exists pre post,
    s = pre ++ w ++ post
    /\ boundary_behind_from p pre = true /\ boundary_ahead post = true.
Proof.
  revert p. induction s as [|c r IH]; intros p H; simpl in H; [discriminate|].
  apply orb_true_iff in H. destruct H as [H|H].
  - apply andb_true_iff in H. destruct H as [Hp Hm].
    destruct (match_at w (String c r)) as [rest|] eqn:E; [|discriminate].
    exists EmptyString, rest. split; [|split; [exact Hp | exact Hm]].
    apply match_at_split in E. exact E.
  - destruct (IH _ H) as [pre [post [Hs [Hb Ha]]]].
    exists (String c pre), post. split; [rewrite Hs; reflexivity|].
    split; [|exact Ha]. rewrite boundary_behind_cons. exact Hb.
Qed.

Lemma contains_word_from_finds (w : string) (p : bool) (pre post : string) :
  w <> EmptyString ->
  boundary_behind_from p pre = true -> boundary_ahead post = true ->
  contains_word_from w p (pre ++ w ++ post) = true.
Proof.
  intros Hw. revert p. induction pre as [|c pre IH]; intros p Hb Ha.
  - destruct w as [|a w]; [contradiction|].
    change (EmptyString ++ String a w ++ post) with (String a (w ++ post)).
    unfold contains_word_from; fold contains_word_from.
    change (String a (w ++ post)) with (String a w ++ post).
    rewrite match_at_append, Ha.
    unfold boundary_behind_from in Hb. simpl in Hb. rewrite Hb. reflexivity.
  - change (String c pre ++ w ++ post) with (String c (pre ++ w ++ post)).
    unfold contains_word_from; fold contains_word_from.
    rewrite boundary_behind_cons in Hb. rewrite (IH _ Hb Ha).
    apply orb_true_r.
Qed.

Lemma contains_word_iff (w s : string) :
  w <> EmptyString -> (contains_word w s = true <-> whole_word_in w s).
Proof.
  intro Hw. unfold contains_word, whole_word_in. split.
  - intro H. apply contains_word_from_found in H.
    destruct H as [pre [post [Hs [Hb Ha]]]]. exists pre, post.
    split; [exact Hs|]. split; [|exact Ha].
    unfold boundary_behind_from in Hb. unfold boundary_behind.
    destruct (last_char pre); [exact Hb | reflexivity].
  - intros [pre [post [Hs [Hb Ha]]]]. subst s.
    apply contains_word_from_finds; [exact Hw | | exact Ha].
    unfold boundary_behind_from. unfold boundary_behind in Hb.
    destruct (last_char pre); [exact Hb | reflexivity].
Qed.

Lemma contains_iff (w s : string) :
  w <> EmptyString -> (contains w s = true <-> part_of w s).
Proof.
  intro Hw. unfold part_of. split.
  - induction s as [|c r IH]; simpl; [discriminate|].
    destruct (match_at w (String c r)) as [rest|] eqn:E.
    + intros _. exists EmptyString, rest. apply match_at_split in E. exact E.
    + intro H. destruct (IH H) as [pre [post Hs]].
      exists (String c pre), post. rewrite Hs. reflexivity.
  - intros [pre [post Hs]]. subst s. induction pre as [|c pre IH].
    + destruct w as [|a w]; [contradiction|].
      change (EmptyString ++ String a w ++ post) with (String a (w ++ post)).
      unfold contains; fold contains.
      change (String a (w ++ post)) with (String a w ++ post).
      rewrite match_at_append. reflexivity.
    + change (String c pre ++ w ++ post) with (String c (pre ++ w ++ post)).
      unfold contains; fold contains. rewrite IH.
      destruct (match_at w (String c (pre ++ w ++ post))); reflexivity.
Qed.

Lemma lower_char_idempotent (c : ascii) : lower_char (lower_char c) = lower_char c.
Proof.
  destruct c as [[] [] [] [] [] [] [] []]; reflexivity.
Qed.

Lemma lower_idempotent (s : string) : lower (lower s) = lower s.
Proof.
  induction s as [|c r IH]; simpl; [reflexivity|].
  rewrite lower_char_idempotent, IH. reflexivity.
Qed.

Lemma as_int_one (b : bool) : as_int b = 1%Z <-> b = true.
Proof. destruct b; simpl; split; intro H; try reflexivity; discriminate. Qed.

(** The venue columns of [build_features]. Each is 0 or 1. [venue_library],
    [venue_park] and [venue_church] are 1 exactly when the word stands in
    the lower-cased location as a whole word; [venue_museum] is 1 exactly
    when "museum" stands there as a whole word or "gallery" stands there
    anywhere, also inside a longer word. The columns do not depend on the
    case of the location. *)
Theorem venue_columns (location : string) :
  let v := build_features_venues location in
  (venue_library v = 1%Z <-> whole_word_in "library" (lower location))
  /\ (venue_park v = 1%Z <-> whole_word_in "park" (lower location))
  /\ (venue_church v = 1%Z <-> whole_word_in "church" (lower location))
  /\ (venue_museum v = 1%Z <->
      whole_word_in "museum" (lower location)
      \/ part_of "gallery" (lower location))
  /\ ((venue_library v = 0 \/ venue_library v = 1)
      /\ (venue_park v = 0 \/ venue_park v = 1)
      /\ (venue_church v = 0 \/ venue_church v = 1)
      /\ (venue_museum v = 0 \/ venue_museum v = 1))%Z
  /\ build_features_venues (lower location) = v.
Proof.
  unfold build_features_venues. simpl.
  split; [rewrite as_int_one; apply contains_word_iff; discriminate|].
  split; [rewrite as_int_one; apply contains_word_iff; discriminate|].
  split; [rewrite as_int_one; apply contains_word_iff; discriminate|].
  split.
  { rewrite as_int_one, orb_true_iff.
    rewrite (contains_word_iff "museum") by discriminate.
    rewrite (contains_iff "gallery") by discriminate. reflexivity. }
  split.
  { repeat split;
      match goal with |- (as_int ?b = 0 \/ _)%Z => destruct b; auto end. }
  rewrite lower_idempotent. reflexivity.
Qed.

(** The scenario of the specification, and a gallery inside a word. *)
Example venue_examples :
  build_features_venues "Perdido Library" = mkVenues 1 0 0 0
  /\ build_features_venues "Librarys, Parks and Museums" = mkVenues 0 0 0 0
  /\ build_features_venues "The ArtGallerys" = mkVenues 0 0 0 1.
Proof. repeat split. Qed.

End VenueFacts.

(* ================================================================== *)
(** ** The rows of a frame under propagation *)

Module ShapeFacts.
Import PropagatorFacts.

(** No propagator adds, drops or reorders rows, and the strict ones and
    [merge_and_propagate_labels.main] do not touch a series key, null or
    not: the key column comes out as it went in, and [main] leaves the
    predicted labels too. [propagate_series_labels] of
    [auto_label_and_train.py] leaves the uids; the frame it returns has a
    [series_id] column, which is the one of its input when that has the
    column and some key in it, and holds the series numbers of the uids
    otherwise. *)
Theorem propagation_keeps_the_rows (df : list (Cell.cell * string))
  (rows : list MergePropagate.row) (events : AutoLabel.frame) :
  map fst (FillRecurring.fill_recurring_labels df) = map fst df
  /\ map fst (Trainer.propagate_labels df) = map fst df
  /\ map MergePropagate.series_id (MergePropagate.main rows)
     = map MergePropagate.series_id rows
  /\ map MergePropagate.predicted_label (MergePropagate.main rows)
     = map MergePropagate.predicted_label rows
  /\ map AutoLabel.uid (AutoLabel.rows (AutoLabel.propagate_series_labels events))
     = map AutoLabel.uid (AutoLabel.rows events)
  /\ AutoLabel.has_series_id (AutoLabel.propagate_series_labels events) = true
  /\ map AutoLabel.series_id
         (AutoLabel.rows (AutoLabel.propagate_series_labels events))
     = (if negb (AutoLabel.has_series_id events)
           || forallb Cell.isna
                (map AutoLabel.series_id (AutoLabel.rows events))
        then map (fun r => SeriesNumber.extract_series_id (AutoLabel.uid r))
                 (AutoLabel.rows events)
        else map AutoLabel.series_id (AutoLabel.rows events)).
Proof.
  split; [rewrite fill_recurring_labels_rows, map_map; reflexivity|].
  split; [rewrite trainer_propagate_labels_rows, map_map; reflexivity|].
  split; [rewrite MajorityFacts.main_rows, map_map; reflexivity|].
  split; [rewrite MajorityFacts.main_rows, map_map; reflexivity|].
  unfold AutoLabel.propagate_series_labels. simpl.
  rewrite AutoLabelFacts.propagate_rows_uids, AutoLabelFacts.propagate_rows_keys.
  unfold AutoLabel.with_series_id.
  destruct (negb (AutoLabel.has_series_id events)
            || forallb Cell.isna
                 (map AutoLabel.series_id (AutoLabel.rows events))).
  - unfold AutoLabel.rebuild_series_id. rewrite !map_map. simpl.
    repeat split; reflexivity.
  - repeat split; reflexivity.
Qed.

End ShapeFacts.
